(** * Connect-The-Dots: outline extraction and persona-driven section ranking

    A shallow embedding of the two programs of the repository,

    - [process_pdfs.py] (round 1a): title and H1/H2/H3 outline of a PDF,
    - [round1b_processor_advanced.py] (round 1b): candidate sections of a set
      of PDFs, ranked against a persona query, with a refined excerpt each,

    and the properties their specification states about them.

    Conventions of the embedding.
    - A Python [str] is the list of its code points ([pystr]).
    - A Python [float] is idealised as a rational ([Q]); the binary rounding
      error of float arithmetic is not modelled.  [round(x, 1)] is rounding to
      the nearest tenth, ties to even.  Where a float quotient falls beside a
      tie that the exact quotient hits, as for the mean of 12.0 and 12.1, the
      rounded mean of the interpreter differs from the one here; no statement
      below depends on the value of a mean.
    - The Unicode character database behind [unicodedata.category],
      [str.isupper], [str.strip], [str.split] and [str.capitalize] is a
      parameter ([UnicodeData]); the general theorems hold for every table.
    - PyMuPDF, the sentence-embedding model and [torch.topk] are collaborators:
      a document is given as its pages of raw spans, similarities and the
      top-k choice as functions. *)

From Stdlib Require Import String Ascii.
From Stdlib Require Import List Bool Arith ZArith NArith QArith Qround Qabs.
From Stdlib Require Import Lia Lqa Permutation Sorted.
Import ListNotations.
Close Scope Q_scope.

Set Implicit Arguments.

(* ================================================================== *)
(** * Part I. The Python runtime the two programs rely on              *)
(* ================================================================== *)

Module Py.

(** ** Strings *)

Definition pystr := list N.

Definition ord (a : ascii) : N := N_of_ascii a.

(** A string literal of the source, for ASCII text. *)
Definition lit (s : string) : pystr := map N_of_ascii (list_ascii_of_string s).

Definition SPACE : N := 32%N.
Definition NEWLINE : N := 10%N.
Definition EN_DASH : N := 8211%N.
Definition CAPITAL_SIGMA : N := 931%N.
Definition FINAL_SIGMA : N := 962%N.
Definition SMALL_SIGMA : N := 963%N.

Fixpoint str_eqb (a b : pystr) : bool :=
  match a, b with
  | [], [] => true
  | x :: a', y :: b' => N.eqb x y && str_eqb a' b'
  | _, _ => false
  end.

(** [x in s] for a list or a set used as a set of strings. *)
Definition str_mem (x : pystr) (s : list pystr) : bool := existsb (str_eqb x) s.

(** [sep.join(parts)]. *)
Fixpoint join (sep : pystr) (parts : list pystr) : pystr :=
  match parts with
  | [] => []
  | [p] => p
  | p :: rest => p ++ sep ++ join sep rest
  end.

(** [s.lstrip(chars)] and [s.rstrip(chars)], the character set as a test. *)
Fixpoint lstrip_by (p : N -> bool) (s : pystr) : pystr :=
  match s with
  | [] => []
  | c :: r => if p c then lstrip_by p r else s
  end.

Definition rstrip_by (p : N -> bool) (s : pystr) : pystr :=
  rev (lstrip_by p (rev s)).

(** [s.endswith(suffix)] and [s.endswith((suffix, ...))]. *)
Definition endswith (s suffix : pystr) : bool :=
  (length suffix <=? length s)
  && str_eqb (skipn (length s - length suffix) s) suffix.

Definition endswith_any (s : pystr) (suffixes : list pystr) : bool :=
  existsb (endswith s) suffixes.

(** [s.replace(old, new)] for a one-character [old]. *)
Definition replace_char (old : N) (new : pystr) (s : pystr) : pystr :=
  flat_map (fun c => if N.eqb c old then new else [c]) s.

(** ** The Unicode character database *)

Record UnicodeData : Type := {
  (** [unicodedata.category(ch).startswith('L')] *)
  is_letter : N -> bool;
  (** [ch.isspace()]: what [strip()] removes and [split()] splits on *)
  is_space : N -> bool;
  (** [ch.isupper()]: the character has the Uppercase property *)
  is_upper : N -> bool;
  (** [ch.islower()]: the character has the Lowercase property *)
  is_lower : N -> bool;
  (** the character is a title-case letter (category Lt) *)
  is_titlecase : N -> bool;
  (** full title-case mapping, applied by [capitalize] to the first character *)
  to_title : N -> pystr;
  (** full lower-case mapping, applied by [capitalize] to every other
      character but the capital sigma, which goes by its context *)
  to_lower : N -> pystr;
  (** the character has the Case_Ignorable property *)
  is_case_ignorable : N -> bool
}.

(** A character is cased when it is uppercase, lowercase or title-case;
    the characters of a script without case (ideographs, for one) are not. *)
Definition is_cased (U : UnicodeData) (c : N) : bool :=
  is_upper U c || is_lower U c || is_titlecase U c.

Section WithUnicode.
Variable U : UnicodeData.

(** [s.strip()] *)
Definition strip (s : pystr) : pystr :=
  rstrip_by (is_space U) (lstrip_by (is_space U) s).

(** [s.split()]: the maximal runs of non-whitespace characters.  [cur] is the
    word being read, most recent character first. *)
Definition flush (cur : pystr) (words : list pystr) : list pystr :=
  match cur with
  | [] => words
  | _ :: _ => rev cur :: words
  end.

Fixpoint split_from (cur : pystr) (s : pystr) : list pystr :=
  match s with
  | [] => flush cur []
  | c :: r =>
      if is_space U c then flush cur (split_from [] r)
      else split_from (c :: cur) r
  end.

Definition split (s : pystr) : list pystr := split_from [] s.

(** [w.capitalize()], as the interpreter computes it: the first character
    by its title-case mapping, the character at each later index [i] by
    [lower_ucs4], which lower-cases by the table except for the capital sigma
    U+03A3: that one becomes the final sigma U+03C2 when, case-ignorable
    characters skipped, a cased character stands before index [i] and none
    stands after it, and the small sigma U+03C3 otherwise. *)

(** The backward scan from index [j - 1] down to 0: whether the first
    character that is not case-ignorable exists and is cased. *)
Fixpoint cased_before (data : pystr) (j : nat) : bool :=
  match j with
  | 0 => false
  | S j' =>
      let c := nth j' data 0%N in
      if is_case_ignorable U c then cased_before data j' else is_cased U c
  end.

(** The forward scan from index [j] over the [n] characters left. *)
Fixpoint cased_after (data : pystr) (j n : nat) : bool :=
  match n with
  | 0 => false
  | S n' =>
      let c := nth j data 0%N in
      if is_case_ignorable U c then cased_after data (S j) n' else is_cased U c
  end.

Definition handle_capital_sigma (data : pystr) (i : nat) : N :=
  if cased_before data i && negb (cased_after data (S i) (length data - S i))
  then FINAL_SIGMA else SMALL_SIGMA.

Definition lower_ucs4 (data : pystr) (i : nat) (c : N) : pystr :=
  if N.eqb c CAPITAL_SIGMA then [handle_capital_sigma data i] else to_lower U c.

Definition capitalize (w : pystr) : pystr :=
  match w with
  | [] => []
  | c :: _ =>
      to_title U c
      ++ flat_map (fun i => lower_ucs4 w i (nth i w 0%N)) (seq 1 (length w - 1))
  end.

End WithUnicode.

(** ** Numbers *)

Definition Qltb (a b : Q) : bool := negb (Qle_bool b a).

(** The integer nearest to [q], ties to the even one. *)
Definition round_half_even (q : Q) : Z :=
  let f := Qfloor q in
  match Qcompare (q - inject_Z f)%Q (1 # 2)%Q with
  | Lt => f
  | Gt => (f + 1)%Z
  | Eq => if Z.even f then f else (f + 1)%Z
  end.

(** [round(q, 1)] *)
Definition round1 (q : Q) : Q :=
  Qred (inject_Z (round_half_even (q * 10)%Q) / 10)%Q.

(** [sum(xs)] *)
Definition Qsum (xs : list Q) : Q := fold_left Qplus xs 0%Q.

(** [sum(xs) / len(xs)] *)
Definition mean (xs : list Q) : Q :=
  (Qsum xs / inject_Z (Z.of_nat (length xs)))%Q.

(** [x in xs] for floats. *)
Definition Qmem (x : Q) (xs : list Q) : bool := existsb (Qeq_bool x) xs.

(** ** Lists *)

(** [enumerate(l, start)] *)
Fixpoint enumerate (A : Type) (start : nat) (l : list A) : list (nat * A) :=
  match l with
  | [] => []
  | x :: r => (start, x) :: enumerate (S start) r
  end.

Section Sorting.
Variables (A K : Type).
Variable leb : K -> K -> bool.
Variable key : A -> K.

(** [list.sort(key=key)] and [sorted(l, key=key)] are stable: elements with
    equal keys keep their order.  The model is insertion from the right,
    an element going in front of the first one whose key is not smaller. *)
Fixpoint insert_by (x : A) (l : list A) : list A :=
  match l with
  | [] => [x]
  | y :: r => if leb (key x) (key y) then x :: l else y :: insert_by x r
  end.

Fixpoint sort_by (l : list A) : list A :=
  match l with
  | [] => []
  | x :: r => insert_by x (sort_by r)
  end.

End Sorting.

(** Ascending and descending ([reverse=True]) order on floats. *)
Definition asc (a b : Q) : bool := Qle_bool a b.
Definition desc (a b : Q) : bool := Qle_bool b a.

(** [set(xs)] of floats, as the list of the first occurrences. *)
Fixpoint distinct (xs : list Q) : list Q :=
  match xs with
  | [] => []
  | x :: r => x :: filter (fun y => negb (Qeq_bool y x)) (distinct r)
  end.

(** [sorted({...}, reverse=True)[:3]]: the three largest distinct values. *)
Definition top3 (xs : list Q) : list Q :=
  firstn 3 (sort_by desc (fun x => x) (distinct xs)).

End Py.

Import Py.

(** ** The PDF layout collaborator *)

(** A span as PyMuPDF reports it: text, font size and the top-left corner of
    its bounding box.  A page is the list of its spans in the order the nested
    loops over blocks, lines and spans visit them; a document is the list of
    its pages. *)
Record RawSpan : Type := {
  raw_text : pystr;
  raw_size : Q;
  bbox_x0 : Q;
  bbox_y0 : Q
}.

Definition Page := list RawSpan.
Definition Document := list Page.

(* ================================================================== *)
(** * Part II. [process_pdfs.py]: the outline extractor                *)
(* ================================================================== *)

Module Outline.

(** The span dictionary [{"text", "size", "x0", "y0"}]. *)
Record Span : Type := {
  text : pystr;
  size : Q;
  x0 : Q;
  y0 : Q
}.

(** The line tuple [(page, text, avg_size, avg_y0)]. *)
Record Line : Type := {
  l_page : nat;
  l_text : pystr;
  l_size : Q;
  l_y0 : Q
}.

Inductive HeadingLevel : Type := H1 | H2 | H3.

(** The outline entry [{"level", "text", "page"}]. *)
Record OutlineEntry : Type := {
  level : HeadingLevel;
  e_text : pystr;
  e_page : nat
}.

Record Result : Type := {
  title : pystr;
  outline : list OutlineEntry
}.

Section WithUnicode.
Variable U : UnicodeData.

(** [any(unicodedata.category(ch).startswith('L') for ch in text)] *)
Definition has_letter (s : pystr) : bool := existsb (is_letter U) s.

(** The span loop of a page: a span is kept when its stripped text is not
    empty and holds a letter. *)
Definition collect_span (sp : RawSpan) : list Span :=
  let txt := strip U (raw_text sp) in
  match txt with
  | [] => []
  | _ :: _ =>
      if has_letter txt
      then [{| text := txt; size := round1 (raw_size sp);
               x0 := bbox_x0 sp; y0 := bbox_y0 sp |}]
      else []
  end.

Definition collect_spans (page : Page) : list Span := flat_map collect_span page.

(** [abs(b[0]["y0"] - s["y0"]) < 2] *)
Definition same_row (s0 s : Span) : bool := Qltb (Qabs (y0 s0 - y0 s)%Q) 2%Q.

(** The inner loop over the buckets: [s] is appended to the first bucket whose
    first span is on its row; [None] when no bucket took it ([placed] stays
    false).  A bucket is never empty. *)
Fixpoint place (s : Span) (buckets : list (list Span)) : option (list (list Span)) :=
  match buckets with
  | [] => None
  | b :: rest =>
      match b with
      | s0 :: _ =>
          if same_row s0 s then Some ((b ++ [s]) :: rest)
          else option_map (cons b) (place s rest)
      | [] => option_map (cons b) (place s rest)
      end
  end.

Definition bucket_step (buckets : list (list Span)) (s : Span) : list (list Span) :=
  match place s buckets with
  | Some buckets' => buckets'
  | None => buckets ++ [[s]]
  end.

Definition bucket_spans (spans : list Span) : list (list Span) :=
  fold_left bucket_step spans [].

(** The text of a bucket sorted by [x0]: a run of at least three one-character
    spans is joined without separator, anything else with a space. *)
Definition line_text (b : list Span) : pystr :=
  let texts := map text b in
  strip U
    (if forallb (fun t => length t =? 1) texts && (3 <=? length texts)
     then join [] texts
     else join [SPACE] texts).

(** The loop body over a bucket: the line it appends, if any. *)
Definition build_line (page_num : nat) (bucket : list Span) : list Line :=
  let b := sort_by asc x0 bucket in
  let txt := line_text b in
  if has_letter txt
  then [{| l_page := page_num; l_text := txt;
           l_size := round1 (mean (map size b));
           l_y0 := mean (map y0 b) |}]
  else [].

(** The buckets of every page, each with its page number. *)
Definition page_buckets (doc : Document) : list (nat * list Span) :=
  flat_map (fun '(page_num, page) =>
              map (pair page_num) (bucket_spans (collect_spans page)))
           (enumerate 1 doc).

(** Step 1: the lines of the document, page by page. *)
Definition collect_lines (doc : Document) : list Line :=
  flat_map (fun '(page_num, b) => build_line page_num b) (page_buckets doc).

(** Step 2: the topmost line of page 1. *)
Definition first_page (lines : list Line) : list Line :=
  filter (fun l => l_page l =? 1) lines.

Definition top_line (lines : list Line) : option Line :=
  hd_error (sort_by asc l_y0 (first_page lines)).

Definition choose_title (lines : list Line) (stem : pystr) : pystr :=
  match top_line lines with
  | Some l => l_text l
  | None => stem
  end.

(** Step 3: the three largest sizes and their levels. *)
Definition top_sizes (lines : list Line) : list Q := top3 (map l_size lines).

Definition level_map (sizes : list Q) : list (Q * HeadingLevel) :=
  combine sizes [H1; H2; H3].

(** [level_map.get(sz)] *)
Fixpoint get_level (m : list (Q * HeadingLevel)) (sz : Q) : option HeadingLevel :=
  match m with
  | [] => None
  | (k, lvl) :: rest => if Qeq_bool k sz then Some lvl else get_level rest sz
  end.

(** Step 4: the outline loop, with its two accumulators. *)
Fixpoint outline_loop (m : list (Q * HeadingLevel)) (lines : list Line)
  (outline : list OutlineEntry) (seen : list pystr) : list OutlineEntry :=
  match lines with
  | [] => outline
  | l :: rest =>
      match get_level m (l_size l) with
      | Some lvl =>
          if str_mem (l_text l) seen
          then outline_loop m rest outline seen
          else outline_loop m rest
                 (outline ++ [{| level := lvl; e_text := l_text l; e_page := l_page l |}])
                 (l_text l :: seen)
      | None => outline_loop m rest outline seen
      end
  end.

Definition build_outline (lines : list Line) : list OutlineEntry :=
  outline_loop (level_map (top_sizes lines)) lines [] [].

(** [extract_outline]; [stem] is [Path(pdf_path).stem]. *)
Definition extract_outline (doc : Document) (stem : pystr) : Result :=
  let lines := collect_lines doc in
  {| title := choose_title lines stem; outline := build_outline lines |}.

End WithUnicode.

End Outline.

(* ================================================================== *)
(** * Part III. [round1b_processor_advanced.py]: the section ranker    *)
(* ================================================================== *)

Module Sections.

Definition TOP_K_SECTIONS : nat := 5.
Definition TOP_K_SENTS : nat := 3.
Definition HEADING_WORDS_MIN : nat := 2.
Definition HEADING_WORDS_MAX : nat := 4.
Definition MAX_HEADING_CHARS : nat := 40.

(** The span tuple [(pg, txt, size, y0, x0)]. *)
Record Span : Type := {
  pg : nat;
  txt : pystr;
  size : Q;
  y0 : Q;
  x0 : Q
}.

(** The collapsed line tuple [(page, text, size)]. *)
Record CLine : Type := {
  c_page : nat;
  c_text : pystr;
  c_size : Q
}.

(** The section dictionary [{"section_title", "page_number", "content"}]. *)
Record Section : Type := {
  section_title : pystr;
  page_number : nat;
  content : pystr
}.

(** A section with the ["filename"] key [main] adds to it. *)
Record Candidate : Type := {
  c_sec : Section;
  filename : pystr
}.

(** A candidate with its ["score"]. *)
Record Scored : Type := {
  s_title : pystr;
  s_page : nat;
  s_content : pystr;
  s_filename : pystr;
  score : Q
}.

(** A selected section with its ["importance_rank"]. *)
Record Ranked : Type := {
  r_sec : Scored;
  importance_rank : nat
}.

Record Challenge : Type := {
  documents : list pystr;
  persona : pystr;
  job : pystr;
  challenge_id : pystr
}.

Record Metadata : Type := {
  input_documents : list pystr;
  md_persona : pystr;
  md_job : pystr;
  processing_timestamp : pystr
}.

Record Extracted : Type := {
  ex_document : pystr;
  ex_title : pystr;
  ex_rank : nat;
  ex_page : nat
}.

Record SubAnalysis : Type := {
  sa_document : pystr;
  refined_text : pystr;
  sa_page : nat
}.

Record Output : Type := {
  metadata : Metadata;
  extracted_sections : list Extracted;
  subsection_analysis : list SubAnalysis
}.

(** What can raise in a run of [main], besides [fitz.open] in
    [extract_sections]: each field says whether the call returns. *)
Record Runtime : Type := {
  (** [out.mkdir], the reading of [challenge1b_input.json] and its parsing *)
  input_reads : bool;
  (** [SentenceTransformer(MODEL_NAME)] *)
  model_loads : bool;
  (** [model.encode(batch)] and the similarities of the batch to the query *)
  encodes : list pystr -> bool;
  (** [fitz.open], [load_page(n)] and [get_text()] of the refinement *)
  page_reads : pystr -> nat -> bool;
  (** [json.dumps] and [write_text] of the file of that name *)
  writes : pystr -> bool
}.

(** How a run of [main] ends: an exception escapes, the diagnostic is printed
    and nothing is written, or the file [name] is written. *)
Inductive Outcome : Type :=
| Raised
| NoHeadings
| Wrote (name : pystr) (out : Output).

Definition writes_output (o : Outcome) : bool :=
  match o with
  | Wrote _ _ => true
  | _ => false
  end.

Section WithUnicode.
Variable U : UnicodeData.

(** [any(unicodedata.category(ch).startswith("L") for ch in s)] *)
Definition has_letter (s : pystr) : bool := existsb (is_letter U) s.

(** ** [clean_heading] *)

(** The characters of [rstrip(".:;")]. *)
Definition is_trailing_punct (c : N) : bool :=
  N.eqb c (ord ".") || N.eqb c (ord ":") || N.eqb c (ord ";").

(** The character class of the pattern: colon, hyphen, en dash. *)
Definition is_clause_sep (c : N) : bool :=
  N.eqb c (ord ":") || N.eqb c (ord "-") || N.eqb c EN_DASH.

(** [re.split(pattern, t, maxsplit=1)[0]]: the text before the first match. *)
Fixpoint first_clause (t : pystr) : pystr :=
  match t with
  | [] => []
  | c :: r => if is_clause_sep c then [] else c :: first_clause r
  end.

Definition clean_heading (s : pystr) : pystr :=
  let t := rstrip_by is_trailing_punct s in
  let clause := strip U (first_clause t) in
  join [SPACE] (map (capitalize U) (split U clause)).

(** ** [extract_sections] *)

Definition collect_span (page_num : nat) (sp : RawSpan) : list Span :=
  let t := strip U (raw_text sp) in
  match t with
  | [] => []
  | _ :: _ =>
      if has_letter t
      then [{| pg := page_num; txt := t; size := round1 (raw_size sp);
               y0 := bbox_y0 sp; x0 := bbox_x0 sp |}]
      else []
  end.

(** The spans of all pages, in one list. *)
Definition collect_spans (doc : Document) : list Span :=
  flat_map (fun '(page_num, page) => flat_map (collect_span page_num) page)
           (enumerate 1 doc).

(** [abs(sp[3] - bucket[-1][3]) < 3] *)
Definition same_row (sp : Span) (bucket : list Span) : bool :=
  Qltb (Qabs (y0 sp - y0 (last bucket sp))%Q) 3%Q.

(** The bucketing loop over [spans[1:]]. *)
Fixpoint bucket_loop (lines : list (list Span)) (bucket : list Span)
  (rest : list Span) : list (list Span) :=
  match rest with
  | [] => lines ++ [bucket]
  | sp :: rest' =>
      if same_row sp bucket
      then bucket_loop lines (bucket ++ [sp]) rest'
      else bucket_loop (lines ++ [bucket]) [sp] rest'
  end.

(** The spans sorted by [y0], all pages together, then bucketed. *)
Definition line_buckets (spans : list Span) : list (list Span) :=
  match sort_by asc y0 spans with
  | [] => []
  | first :: rest => bucket_loop [] [first] rest
  end.

(** The loop body collapsing a bucket to [(page, text, size)]; the page is
    that of the leftmost span. *)
Definition collapse (bucket : list Span) : CLine :=
  let b := sort_by asc x0 bucket in
  let page := match b with s :: _ => pg s | [] => 0 end in
  let texts := map txt b in
  let sz := round1 (mean (map size b)) in
  let singles := length (filter (fun t => length t =? 1) texts) in
  let t := if length texts / 2 <? singles
           then join [] texts else join [SPACE] texts in
  {| c_page := page; c_text := strip U t; c_size := sz |}.

Definition collapsed_lines (spans : list Span) : list CLine :=
  map collapse (line_buckets spans).

Definition top_sizes (collapsed : list CLine) : list Q :=
  top3 (map c_size collapsed).

(** [w and w[0].isupper()] *)
Definition starts_upper (w : pystr) : bool :=
  match w with
  | [] => false
  | c :: _ => is_upper U c
  end.

(** The strict heading test. *)
Definition is_head (tops : list Q) (ln : CLine) : bool :=
  let words := split U (c_text ln) in
  Qmem (c_size ln) tops
  && ((HEADING_WORDS_MIN <=? length words) && (length words <=? HEADING_WORDS_MAX))
  && forallb starts_upper words
  && (length (c_text ln) <=? MAX_HEADING_CHARS)
  && negb (endswith_any (c_text ln) [lit "."; lit ":"; lit ";"]).

(** The fallback heading test. *)
Definition is_fallback_head (tops : list Q) (ln : CLine) : bool :=
  Qmem (c_size ln) tops && (length (split U (c_text ln)) <=? 8).

Definition close_section (curr : option Section) (out : list Section) : list Section :=
  match curr with
  | Some c => out ++ [c]
  | None => out
  end.

Definition add_content (t : pystr) (s : Section) : Section :=
  {| section_title := section_title s;
     page_number := page_number s;
     content := content s ++ t ++ [SPACE] |}.

(** The segmentation loop, shared in shape by the strict and the fallback
    pass: [out] is the list of closed sections, [curr] the open one. *)
Fixpoint segment (heading : CLine -> bool) (lines : list CLine)
  (out : list Section) (curr : option Section) : list Section :=
  match lines with
  | [] => close_section curr out
  | ln :: rest =>
      if heading ln
      then segment heading rest (close_section curr out)
             (Some {| section_title := c_text ln; page_number := c_page ln;
                      content := [] |})
      else segment heading rest out (option_map (add_content (c_text ln)) curr)
  end.

Definition strict_pass (collapsed : list CLine) : list Section :=
  segment (is_head (top_sizes collapsed)) collapsed [] None.

Definition fallback_pass (collapsed : list CLine) : list Section :=
  segment (is_fallback_head (top_sizes collapsed)) collapsed [] None.

(** The merge loop with its [break]. *)
Fixpoint merge_loop (secs : list Section) (merged : list Section)
  (seen : list pystr) : list Section :=
  match secs with
  | [] => merged
  | sec :: rest =>
      let fresh := negb (str_mem (section_title sec) seen) in
      let merged' := if fresh then merged ++ [sec] else merged in
      let seen' := if fresh then section_title sec :: seen else seen in
      if TOP_K_SECTIONS <=? length merged' then merged'
      else merge_loop rest merged' seen'
  end.

Definition sections_of (collapsed : list CLine) : list Section :=
  let strict := strict_pass collapsed in
  if length strict <? TOP_K_SECTIONS
  then merge_loop (strict ++ fallback_pass collapsed) [] []
  else firstn TOP_K_SECTIONS strict.

Definition extract_sections (doc : Document) : list Section :=
  match collect_spans doc with
  | [] => []
  | spans => sections_of (collapsed_lines spans)
  end.

(** ** [main] *)

Section WithCollaborators.

(** [fitz.open(inp / filename)]: the document, or [None] when the call raises
    (a file that is missing or is not a readable PDF). *)
Variable open_pdf : pystr -> option Document.
(** [doc.load_page(n).get_text()] of the file. *)
Variable page_text : pystr -> nat -> pystr.
(** [util.cos_sim(q_emb, model.encode(batch))[0][i]], for the query text. *)
Variable cos_sim : pystr -> list pystr -> nat -> Q.
(** [tensor.topk(k).indices]. *)
Variable topk : list Q -> nat -> list nat.
(** [datetime.utcnow().isoformat()]. *)
Variable now : pystr.
(** Which of the other calls return. *)
Variable rt : Runtime.

Definition tag (fn : pystr) (sec : Section) : Candidate :=
  {| c_sec := sec; filename := fn |}.

(** Step 1: the results of the futures, taken in the order [order] in which
    they complete.  [fut.result()] re-raises what [extract_sections] raised. *)
Fixpoint gather (order : list pystr) (all_secs : list Candidate)
  : option (list Candidate) :=
  match order with
  | [] => Some all_secs
  | fn :: rest =>
      match open_pdf fn with
      | None => None
      | Some doc => gather rest (all_secs ++ map (tag fn) (extract_sections doc))
      end
  end.

(** The similarity tensor of a batch. *)
Definition sims_of (query : pystr) (batch : list pystr) : list Q :=
  map (cos_sim query batch) (seq 0 (length batch)).

Definition with_score (sims : list Q) (ic : nat * Candidate) : Scored :=
  let '(i, c) := ic in
  {| s_title := section_title (c_sec c);
     s_page := page_number (c_sec c);
     s_content := content (c_sec c);
     s_filename := filename c;
     score := nth i sims 0%Q |}.

(** Step 2: the candidates sorted by score, best first. *)
Definition rank_all (query : pystr) (all_secs : list Candidate) : list Scored :=
  let titles := map (fun c => section_title (c_sec c)) all_secs in
  let sims := sims_of query titles in
  sort_by desc score (map (with_score sims) (enumerate 0 all_secs)).

Definition with_clean_title (s : Scored) : Scored :=
  {| s_title := clean_heading (s_title s);
     s_page := s_page s;
     s_content := s_content s;
     s_filename := s_filename s;
     score := score s |}.

(** Step 3: the selection loop with its [break]. *)
Fixpoint select_loop (scored : list Scored) (final : list Scored)
  (seen : list pystr) : list Scored :=
  match scored with
  | [] => final
  | s :: rest =>
      let fresh := negb (str_mem (s_filename s) seen) in
      let final' := if fresh then final ++ [with_clean_title s] else final in
      let seen' := if fresh then s_filename s :: seen else seen in
      if length final' =? TOP_K_SECTIONS then final'
      else select_loop rest final' seen'
  end.

Definition assign_ranks (final : list Scored) : list Ranked :=
  map (fun '(idx, s) => {| r_sec := s; importance_rank := idx |})
      (enumerate 1 final).

Definition select_final (scored : list Scored) : list Ranked :=
  assign_ranks (select_loop scored [] []).

(** Step 4: the refinement of a section. *)

Inductive ScanMode : Type := Plain | AfterEnd | InSep.

Definition is_sentence_end (c : N) : bool :=
  N.eqb c (ord ".") || N.eqb c (ord "!") || N.eqb c (ord "?").

Definition mode_after (c : N) : ScanMode :=
  if is_sentence_end c then AfterEnd else Plain.

(** [re.split(r"(?<=[.!?]) +", cont)]: a run of spaces that follows a
    sentence end separates two pieces.  [cur] is the piece being read, most
    recent character first. *)
Fixpoint sent_scan (mode : ScanMode) (cur : pystr) (s : pystr) : list pystr :=
  match s with
  | [] => [rev cur]
  | c :: r =>
      match mode with
      | InSep =>
          if N.eqb c SPACE then sent_scan InSep [] r
          else sent_scan (mode_after c) [c] r
      | AfterEnd =>
          if N.eqb c SPACE then rev cur :: sent_scan InSep [] r
          else sent_scan (mode_after c) (c :: cur) r
      | Plain => sent_scan (mode_after c) (c :: cur) r
      end
  end.

(** [[s.strip() for s in sents if s.strip()]] *)
Definition sentences (cont : pystr) : list pystr :=
  flat_map (fun s => match strip U s with [] => [] | t => [t] end)
           (sent_scan Plain [] cont).

(** The [else] branch: the chosen indices, sorted, and the joined text. *)
Definition chosen_indices (query : pystr) (sents : list pystr) : list nat :=
  sort_by Nat.leb (fun i => i)
    (topk (sims_of query sents) (Nat.min TOP_K_SENTS (length sents))).

Definition refine_text (query : pystr) (cont : pystr) : pystr :=
  match sentences cont with
  | [] => cont
  | sents => join [SPACE] (map (fun i => nth i sents []) (chosen_indices query sents))
  end.

Definition section_text (sec : Scored) : pystr :=
  match strip U (s_content sec) with
  | [] => strip U (replace_char NEWLINE [SPACE]
                     (page_text (s_filename sec) (s_page sec - 1)))
  | cont => cont
  end.

Definition refine (query : pystr) (r : Ranked) : SubAnalysis :=
  let sec := r_sec r in
  {| sa_document := s_filename sec;
     refined_text := refine_text query (section_text sec);
     sa_page := s_page sec |}.

Definition extracted_of (r : Ranked) : Extracted :=
  {| ex_document := s_filename (r_sec r);
     ex_title := s_title (r_sec r);
     ex_rank := importance_rank r;
     ex_page := s_page (r_sec r) |}.

(** The body of the refinement loop with what it can raise: the page read,
    when the stripped content is empty, and the embedding of the sentences,
    when there are any.  [None] when an exception escapes. *)
Definition refine_step (query : pystr) (r : Ranked) : option SubAnalysis :=
  let sec := r_sec r in
  let page_needed :=
    match strip U (s_content sec) with [] => true | _ :: _ => false end in
  if page_needed && negb (page_reads rt (s_filename sec) (s_page sec - 1))
  then None
  else match sentences (section_text sec) with
       | [] => Some (refine query r)
       | sents => if encodes rt sents then Some (refine query r) else None
       end.

(** The loop over the selected sections. *)
Fixpoint refine_all (query : pystr) (final : list Ranked)
  : option (list SubAnalysis) :=
  match final with
  | [] => Some []
  | r :: rest =>
      match refine_step query r with
      | None => None
      | Some a =>
          match refine_all query rest with
          | None => None
          | Some sub_anal => Some (a :: sub_anal)
          end
      end
  end.

(** [main], for the challenge [ch] read from the input file; [order] lists
    its documents in the order in which their extractions complete.  An
    exception of any call ends the run. *)
Definition main (ch : Challenge) (order : list pystr) : Outcome :=
  let query := persona ch ++ lit ". " ++ job ch in
  if negb (input_reads rt) then Raised
  else if negb (model_loads rt) then Raised
  else
  match gather order [] with
  | None => Raised
  | Some all_secs =>
      let titles := map (fun c => section_title (c_sec c)) all_secs in
      match titles with
      | [] => NoHeadings
      | _ :: _ =>
          if negb (encodes rt titles && encodes rt [query]) then Raised
          else
          let final := select_final (rank_all query all_secs) in
          match refine_all query final with
          | None => Raised
          | Some sub_anal =>
              let name := challenge_id ch ++ lit ".json" in
              if writes rt name
              then Wrote name
                     {| metadata :=
                          {| input_documents := documents ch;
                             md_persona := persona ch;
                             md_job := job ch;
                             processing_timestamp := now |};
                        extracted_sections := map extracted_of final;
                        subsection_analysis := sub_anal |}
              else Raised
          end
      end
  end.

End WithCollaborators.

End WithUnicode.

End Sections.

(* ================================================================== *)
(** * Part IV. A concrete character table and sample inputs            *)
(* ================================================================== *)

Module Samples.

Definition between (lo hi c : N) : bool := N.leb lo c && N.leb c hi.

(** The character table used by the closed examples.  It agrees with the
    Unicode character database on ASCII, on the en dash and on the CJK
    Unified Ideographs block U+4E00..U+9FFF (letters of category Lo, without
    case); the examples use no other character. *)
Definition basic_db : UnicodeData := {|
  is_letter := fun c =>
    between 65 90 c || between 97 122 c || between 19968 40959 c;
  is_space := fun c => between 9 13 c || between 28 32 c;
  is_upper := fun c => between 65 90 c;
  is_lower := fun c => between 97 122 c;
  is_titlecase := fun _ => false;
  to_title := fun c => if between 97 122 c then [(c - 32)%N] else [c];
  to_lower := fun c => if between 65 90 c then [(c + 32)%N] else [c];
  is_case_ignorable := fun c =>
    N.eqb c 39 || N.eqb c 46 || N.eqb c 58 || N.eqb c 94 || N.eqb c 96
|}.

(** The same table with the Greek letters U+0391..U+03A9 (capital) and
    U+03B1..U+03C9 (small, the final sigma U+03C2 among them) added. *)
Definition greek_db : UnicodeData := {|
  is_letter := fun c =>
    is_letter basic_db c || between 913 929 c || between 931 937 c
    || between 945 969 c;
  is_space := is_space basic_db;
  is_upper := fun c =>
    is_upper basic_db c || between 913 929 c || between 931 937 c;
  is_lower := fun c => is_lower basic_db c || between 945 969 c;
  is_titlecase := fun _ => false;
  to_title := fun c =>
    if N.eqb c 962 then [931%N]
    else if between 945 969 c then [(c - 32)%N] else to_title basic_db c;
  to_lower := fun c =>
    if between 913 929 c || between 931 937 c then [(c + 32)%N]
    else to_lower basic_db c;
  is_case_ignorable := is_case_ignorable basic_db
|}.

(** Two Greek words in capitals, each with a sigma: U+039F U+0394 U+039F
    U+03A3 and U+039F U+03A3 U+039F. *)
Definition greek_heading : pystr := [927; 916; 927; 931; 32; 927; 931; 927]%N.

Definition raw (t : string) (sz x y : Q) : RawSpan :=
  {| raw_text := lit t; raw_size := sz; bbox_x0 := x; bbox_y0 := y |}.

(** Two pages, one span each, at the same height on their pages. *)
Definition two_page_doc : Document :=
  [ [raw "Alpha" 12 50 100]; [raw "Beta" 12 60 100] ]%Q.

(** A report: a title at the top of page 1 in the largest size, body text
    and a footer below it, and a second page that repeats the title. *)
Definition report_doc : Document :=
  [ [raw "Body" 10 72 120; raw "text" 10 110 120;
     raw "Report Title" 20 72 45; raw "Footer" 8 72 200];
    [raw "Report Title" 20 72 45; raw "More body" 10 72 120] ]%Q.

Definition candidate (fn t : string) (page : nat) : Sections.Candidate :=
  {| Sections.c_sec := {| Sections.section_title := lit t;
                          Sections.page_number := page;
                          Sections.content := lit "Some body text. " |};
     Sections.filename := lit fn |}.

(** Seven candidate sections from five documents. *)
Definition seven_candidates : list Sections.Candidate :=
  [ candidate "a.pdf" "Coastal Walks" 1; candidate "a.pdf" "City Guide: Nice" 2;
    candidate "b.pdf" "Local Cuisine" 1; candidate "c.pdf" "Packing Tips" 3;
    candidate "d.pdf" "Night Life" 1; candidate "b.pdf" "Wine Regions" 4;
    candidate "e.pdf" "History" 2 ].

(** A similarity tensor for them, by position in the batch. *)
Definition seven_sims (query : pystr) (batch : list pystr) (i : nat) : Q :=
  nth i [3 # 10; 9 # 10; 5 # 10; 2 # 10; 7 # 10; 8 # 10; 1 # 10]%Q 0%Q.

(** A top-k choice: the positions of the tensor sorted by value, best first,
    and the first [k] of them. *)
Definition topk_sorted (t : list Q) (k : nat) : list nat :=
  firstn k (map fst (sort_by desc snd (enumerate 0 t))).

(** Five sentences and a similarity tensor that ranks them 3, 0, 2, 4, 1. *)
Definition five_sentences : pystr :=
  lit "Alpha one. Beta two!  Gamma three? Delta four. Epsilon five.".

Definition five_sims (query : pystr) (batch : list pystr) (i : nat) : Q :=
  nth i [8 # 10; 1 # 10; 7 # 10; 9 # 10; 2 # 10]%Q 0%Q.

(** A selected section whose content is the five sentences. *)
Definition selected_section : Sections.Ranked :=
  {| Sections.r_sec :=
       {| Sections.s_title := lit "Greek Letters";
          Sections.s_page := 2;
          Sections.s_content := five_sentences ++ lit " ";
          Sections.s_filename := lit "letters.pdf";
          Sections.score := (6 # 10)%Q |};
     Sections.importance_rank := 1 |}.

(** A file system with one readable report; any other name fails to open. *)
Definition one_report (fn : pystr) : option Document :=
  if str_eqb fn (lit "report.pdf") then Some report_doc else None.

Definition no_page_text (fn : pystr) (n : nat) : pystr := [].

Definition challenge : Sections.Challenge :=
  {| Sections.documents := [lit "report.pdf"];
     Sections.persona := lit "Analyst";
     Sections.job := lit "Summarise the report";
     Sections.challenge_id := lit "round_1b_001" |}.

Definition challenge_missing : Sections.Challenge :=
  {| Sections.documents := [lit "report.pdf"; lit "missing.pdf"];
     Sections.persona := lit "Analyst";
     Sections.job := lit "Summarise the report";
     Sections.challenge_id := lit "round_1b_002" |}.

(** A one-page document with three strict headings and body lines; every
    size of the page is among its three largest. *)
Definition chapters_doc : Document :=
  [ [raw "Chapter One" 18 72 50; raw "body text here." 10 72 70;
     raw "Chapter Two" 18 72 90; raw "more text." 10 72 110;
     raw "Chapter Three" 16 72 130;
     raw "a longer subheading of several words" 16 72 150;
     raw "final text." 10 72 170] ]%Q.

Definition cline (t : string) (sz : Q) : Sections.CLine :=
  {| Sections.c_page := 1; Sections.c_text := lit t; Sections.c_size := sz |}.

(** A document whose first page holds page numbers and rules only. *)
Definition numbered_doc : Document :=
  [ [raw "12" 10 72 50; raw "---" 10 72 70]; [raw "Alpha" 12 50 100] ]%Q.

(** A document without a letter. *)
Definition letterless_doc : Document :=
  [ [raw "12" 10 72 50; raw "---" 10 72 70]; [raw " " 12 50 100] ]%Q.

(** A selected section without content, on a blank page. *)
Definition blank_section : Sections.Ranked :=
  {| Sections.r_sec :=
       {| Sections.s_title := lit "Appendix";
          Sections.s_page := 3;
          Sections.s_content := lit "   ";
          Sections.s_filename := lit "letters.pdf";
          Sections.score := (1 # 10)%Q |};
     Sections.importance_rank := 2 |}.

(** A run in which every call returns, and one in which the output file
    cannot be written. *)
Definition all_fine : Sections.Runtime :=
  {| Sections.input_reads := true;
     Sections.model_loads := true;
     Sections.encodes := fun _ => true;
     Sections.page_reads := fun _ _ => true;
     Sections.writes := fun _ => true |}.

Definition no_write : Sections.Runtime :=
  {| Sections.input_reads := true;
     Sections.model_loads := true;
     Sections.encodes := fun _ => true;
     Sections.page_reads := fun _ _ => true;
     Sections.writes := fun _ => false |}.

(** A file system in which every name opens to the document without letters. *)
Definition blank_files (fn : pystr) : option Document := Some letterless_doc.

(** The run over the readable report, and what it writes. *)
Definition report_run : Sections.Outcome :=
  Sections.main basic_db one_report no_page_text five_sims topk_sorted
    (lit "2025-07-28T10:00:00") all_fine challenge [lit "report.pdf"].

Definition report_output : Sections.Output :=
  match report_run with
  | Sections.Wrote _ out => out
  | _ => {| Sections.metadata :=
              {| Sections.input_documents := []; Sections.md_persona := [];
                 Sections.md_job := []; Sections.processing_timestamp := [] |};
            Sections.extracted_sections := [];
            Sections.subsection_analysis := [] |}
  end.

(** A line of two ideographic words, U+4E2D U+6587 and U+6807 U+9898. *)
Definition cjk_title : pystr := [20013; 25991; 32; 26631; 39064]%N.

Definition cjk_line : Sections.CLine :=
  {| Sections.c_page := 1; Sections.c_text := cjk_title; Sections.c_size := 18%Q |}.

End Samples.

(* ================================================================== *)
(** * Part V. The vocabulary of the specification                      *)
(* ================================================================== *)

Module Spec.

(** A word: a non-empty string without whitespace. *)
Definition is_word (U : UnicodeData) (w : pystr) : Prop :=
  w <> [] /\ Forall (fun c => is_space U c = false) w.

(** [s] is one of the three largest distinct values of [sizes]: it occurs in
    [sizes], and no three values of [sizes] lie strictly above it, one above
    the other. *)
Definition among_top3 (sizes : list Q) (s : Q) : Prop :=
  (exists s', In s' sizes /\ (s' == s)%Q) /\
  ~ (exists a b c, In a sizes /\ In b sizes /\ In c sizes /\
                   (b < a)%Q /\ (c < b)%Q /\ (s < c)%Q).

(** The strict heading criterion, in the words of the specification, for a
    line [ln] of a document whose collapsed lines are [collapsed]. *)
Definition strict_heading (U : UnicodeData) (collapsed : list Sections.CLine)
  (ln : Sections.CLine) : Prop :=
  let words := split U (Sections.c_text ln) in
  among_top3 (map Sections.c_size collapsed) (Sections.c_size ln) /\
  2 <= length words <= 4 /\
  (forall w, In w words -> exists c r, w = c :: r /\ is_upper U c = true) /\
  length (Sections.c_text ln) <= 40 /\
  (forall body c, Sections.c_text ln = body ++ [c] ->
                  c <> ord "." /\ c <> ord ":" /\ c <> ord ";").

(** Title-casing of a token as the specification words it: the first
    character upper-cased, the remainder of the token unchanged. *)
Definition title_keep_rest (U : UnicodeData) (w : pystr) : pystr :=
  match w with
  | [] => []
  | c :: r => to_title U c ++ r
  end.

(** [clean_heading] with that title-casing in place of [capitalize]. *)
Definition clean_heading_keep_rest (U : UnicodeData) (s : pystr) : pystr :=
  let t := rstrip_by Sections.is_trailing_punct s in
  let clause := strip U (Sections.first_clause t) in
  join [SPACE] (map (title_keep_rest U) (split U clause)).

(** De-duplication by a textual key, the earliest instance of each key kept. *)
Fixpoint first_by (A : Type) (key : A -> pystr) (l : list A) : list A :=
  match l with
  | [] => []
  | x :: r => x :: filter (fun y => negb (str_eqb (key y) (key x))) (first_by key r)
  end.

(** The lines of the outline that carry a heading level, as entries. *)
Definition heading_entries (m : list (Q * Outline.HeadingLevel))
  (lines : list Outline.Line) : list Outline.OutlineEntry :=
  flat_map (fun l =>
              match Outline.get_level m (Outline.l_size l) with
              | Some lvl => [{| Outline.level := lvl;
                                Outline.e_text := Outline.l_text l;
                                Outline.e_page := Outline.l_page l |}]
              | None => []
              end) lines.

(** [idxs] is a choice of the [k] largest entries of the tensor [t]: [k]
    distinct positions of [t], none of the others with a larger value. *)
Definition is_topk (t : list Q) (k : nat) (idxs : list nat) : Prop :=
  length idxs = k
  /\ NoDup idxs
  /\ (forall i, In i idxs -> i < length t)
  /\ (forall i j, In i idxs -> j < length t -> ~ In j idxs ->
                  (nth j t 0 <= nth i t 0)%Q).

(** The candidate sections of the documents that open, in completion order. *)
Definition candidate_sections (U : UnicodeData)
  (open_pdf : pystr -> option Document) (order : list pystr)
  : list Sections.Candidate :=
  flat_map (fun fn =>
              match open_pdf fn with
              | Some doc => map (Sections.tag fn) (Sections.extract_sections U doc)
              | None => []
              end) order.

(** The position of a heading level, 1 for the highest. *)
Definition level_rank (lvl : Outline.HeadingLevel) : nat :=
  match lvl with
  | Outline.H1 => 1
  | Outline.H2 => 2
  | Outline.H3 => 3
  end.

(** The body of a section: the texts of the lines up to the next heading,
    each followed by a space. *)
Fixpoint body_until (heading : Sections.CLine -> bool)
  (lines : list Sections.CLine) : pystr :=
  match lines with
  | [] => []
  | ln :: rest =>
      if heading ln then []
      else Sections.c_text ln ++ [SPACE] ++ body_until heading rest
  end.

(** Segmentation, stated directly: every heading line opens a section whose
    content is the body that follows it; lines before the first heading
    belong to no section. *)
Fixpoint sections_from (heading : Sections.CLine -> bool)
  (lines : list Sections.CLine) : list Sections.Section :=
  match lines with
  | [] => []
  | ln :: rest =>
      if heading ln
      then {| Sections.section_title := Sections.c_text ln;
              Sections.page_number := Sections.c_page ln;
              Sections.content := body_until heading rest |}
           :: sections_from heading rest
      else sections_from heading rest
  end.

(** Consecutive spans of a bucket are less than [gap] apart in [y0]. *)
Fixpoint chained (gap : Q) (b : list Sections.Span) : Prop :=
  match b with
  | s1 :: (s2 :: _) as rest =>
      (Qabs (Sections.y0 s2 - Sections.y0 s1) < gap)%Q /\ chained gap rest
  | _ => True
  end.

(** Between two consecutive buckets, the last span of the first and the
    first span of the second are at least [gap] apart in [y0]. *)
Fixpoint separated (gap : Q) (bs : list (list Sections.Span)) : Prop :=
  match bs with
  | b1 :: (b2 :: _) as rest =>
      (forall s2, hd_error b2 = Some s2 ->
                  (gap <= Qabs (Sections.y0 s2 - Sections.y0 (last b1 s2)))%Q)
      /\ separated gap rest
  | _ => True
  end.

(** A scored section without its score. *)
Definition to_candidate (s : Sections.Scored) : Sections.Candidate :=
  {| Sections.c_sec := {| Sections.section_title := Sections.s_title s;
                          Sections.page_number := Sections.s_page s;
                          Sections.content := Sections.s_content s |};
     Sections.filename := Sections.s_filename s |}.

(** Lower-casing in context, stated on the characters around a position
    rather than on indices.  [meets_cased l]: skipping the case-ignorable
    characters of [l], a cased character comes first. *)
Fixpoint meets_cased (U : UnicodeData) (l : pystr) : bool :=
  match l with
  | [] => false
  | c :: r => if is_case_ignorable U c then meets_cased U r else is_cased U c
  end.

(** The lower-case form of [c], with [before] the characters in front of it,
    nearest first, and [after] the characters behind it: a capital sigma is
    final when a cased character precedes it and none follows. *)
Definition lower_in_context (U : UnicodeData) (before : pystr) (c : N)
  (after : pystr) : pystr :=
  if N.eqb c CAPITAL_SIGMA
  then [if meets_cased U before && negb (meets_cased U after)
        then FINAL_SIGMA else SMALL_SIGMA]
  else to_lower U c.

(** The characters of [rest] lower-cased, each in its context. *)
Fixpoint lower_tail (U : UnicodeData) (before : pystr) (rest : pystr) : pystr :=
  match rest with
  | [] => []
  | c :: after =>
      lower_in_context U before c after ++ lower_tail U (c :: before) after
  end.

End Spec.

(* ================================================================== *)
(** * Part VI. Facts about the runtime                                 *)
(* ================================================================== *)

Lemma str_eqb_eq (a b : pystr) : str_eqb a b = true <-> a = b.
Proof.
  revert b; induction a as [|x a IH]; intros [|y b]; simpl; split; intros H;
    try reflexivity; try discriminate.
  - apply andb_true_iff in H as [Hx Hr].
    apply N.eqb_eq in Hx. apply IH in Hr. congruence.
  - inversion H; subst. rewrite N.eqb_refl. simpl. now apply IH.
Qed.

Lemma str_eqb_refl (a : pystr) : str_eqb a a = true.
Proof. now apply str_eqb_eq. Qed.

Lemma str_eqb_neq (a b : pystr) : str_eqb a b = false <-> a <> b.
Proof.
  split; intros H.
  - intros E. apply str_eqb_eq in E. congruence.
  - destruct (str_eqb a b) eqn:E; [apply str_eqb_eq in E; contradiction | reflexivity].
Qed.

Lemma str_mem_In (x : pystr) (s : list pystr) : str_mem x s = true <-> In x s.
Proof.
  unfold str_mem. rewrite existsb_exists. split.
  - intros (y & Hy & E). apply str_eqb_eq in E. now subst.
  - intros H. exists x. split; [assumption | apply str_eqb_refl].
Qed.

Lemma str_mem_not_In (x : pystr) (s : list pystr) : str_mem x s = false <-> ~ In x s.
Proof.
  rewrite <- str_mem_In. destruct (str_mem x s); split; congruence.
Qed.

Lemma Qmem_spec (x : Q) (xs : list Q) :
  Qmem x xs = true <-> exists t, In t xs /\ (t == x)%Q.
Proof.
  unfold Qmem. rewrite existsb_exists. split; intros (t & Ht & E); exists t; split; trivial.
  - apply Qeq_bool_iff in E. now symmetry.
  - apply Qeq_bool_iff. now symmetry.
Qed.

(** ** [endswith] *)

Lemma endswith_char (s : pystr) (c : N) :
  endswith s [c] = true <-> exists body, s = body ++ [c].
Proof.
  unfold endswith. change (length [c]) with 1. split.
  - intros H. apply andb_true_iff in H as [Hl He].
    apply str_eqb_eq in He. exists (firstn (length s - 1) s).
    rewrite <- He at 1. now rewrite firstn_skipn.
  - intros (body & ->). rewrite length_app. change (length [c]) with 1.
    apply andb_true_iff. split.
    + apply Nat.leb_le. lia.
    + replace (length body + 1 - 1) with (length body + 0) by lia.
      rewrite skipn_app, Nat.add_0_r, skipn_all.
      replace (length body - length body) with 0 by lia.
      apply str_eqb_refl.
Qed.

(** ** [split] *)

Lemma rev_cons_not_nil (A : Type) (x : A) (l : list A) : rev (x :: l) <> [].
Proof. simpl. destruct (rev l); discriminate. Qed.

Lemma flush_words (U : UnicodeData) (cur : pystr) (ws : list pystr) :
  Forall (fun c => is_space U c = false) cur ->
  Forall (Spec.is_word U) ws ->
  Forall (Spec.is_word U) (flush cur ws).
Proof.
  intros Hcur Hws. destruct cur as [|x cur']; [exact Hws|].
  unfold flush. constructor; [|exact Hws].
  split; [apply rev_cons_not_nil | apply Forall_rev; exact Hcur].
Qed.

Lemma split_from_words (U : UnicodeData) (s cur : pystr) :
  Forall (fun c => is_space U c = false) cur ->
  Forall (Spec.is_word U) (split_from U cur s).
Proof.
  revert cur; induction s as [|c r IH]; intros cur Hcur; simpl.
  - apply flush_words; [exact Hcur | constructor].
  - destruct (is_space U c) eqn:Hc.
    + apply flush_words; [exact Hcur | apply IH; constructor].
    + apply IH. constructor; assumption.
Qed.

Lemma split_words (U : UnicodeData) (s : pystr) : Forall (Spec.is_word U) (split U s).
Proof. apply split_from_words. constructor. Qed.

Lemma split_word_nonempty (U : UnicodeData) (s w : pystr) :
  In w (split U s) -> exists c r, w = c :: r.
Proof.
  intros H. pose proof (split_words U s) as F.
  rewrite Forall_forall in F. destruct (F w H) as [Hne _].
  destruct w as [|c r]; [contradiction | eauto].
Qed.

(** ** Stable sorting by a key *)

Section SortFacts.
Variables (A K : Type).
Variable leb : K -> K -> bool.
Variable key : A -> K.

Lemma insert_by_perm (x : A) (l : list A) :
  Permutation (insert_by leb key x l) (x :: l).
Proof.
  induction l as [|y r IH]; simpl.
  - reflexivity.
  - destruct (leb (key x) (key y)).
    + reflexivity.
    + rewrite IH. apply perm_swap.
Qed.

Lemma sort_by_perm (l : list A) : Permutation (sort_by leb key l) l.
Proof.
  induction l as [|x r IH]; simpl.
  - reflexivity.
  - rewrite insert_by_perm. now constructor.
Qed.

Lemma sort_by_In (x : A) (l : list A) : In x (sort_by leb key l) <-> In x l.
Proof.
  split; apply Permutation_in; [|symmetry]; apply sort_by_perm.
Qed.

Lemma sort_by_length (l : list A) : length (sort_by leb key l) = length l.
Proof. apply Permutation_length, sort_by_perm. Qed.

Hypothesis leb_total : forall a b, leb a b = true \/ leb b a = true.
Hypothesis leb_trans : forall a b c, leb a b = true -> leb b c = true -> leb a c = true.

Lemma insert_by_sorted (x : A) (l : list A) :
  StronglySorted (fun a b => leb (key a) (key b) = true) l ->
  StronglySorted (fun a b => leb (key a) (key b) = true) (insert_by leb key x l).
Proof.
  induction 1 as [|y r Hs IH Hall]; simpl.
  - repeat constructor.
  - destruct (leb (key x) (key y)) eqn:E.
    + constructor; [now constructor|].
      constructor; [exact E|].
      rewrite Forall_forall in *. intros z Hz. eapply leb_trans; eauto.
    + constructor; [exact IH|].
      rewrite Forall_forall in *. intros z Hz.
      apply (Permutation_in _ (insert_by_perm x r)) in Hz.
      destruct Hz as [<- | Hz]; [|now apply Hall].
      destruct (leb_total (key x) (key y)); congruence.
Qed.

Lemma sort_by_sorted (l : list A) :
  StronglySorted (fun a b => leb (key a) (key b) = true) (sort_by leb key l).
Proof.
  induction l as [|x r IH]; simpl.
  - constructor.
  - now apply insert_by_sorted.
Qed.

End SortFacts.

Lemma asc_total (a b : Q) : asc a b = true \/ asc b a = true.
Proof.
  unfold asc. rewrite !Qle_bool_iff.
  destruct (Qlt_le_dec a b) as [H|H]; [left; now apply Qlt_le_weak | now right].
Qed.

Lemma asc_trans (a b c : Q) : asc a b = true -> asc b c = true -> asc a c = true.
Proof. unfold asc. rewrite !Qle_bool_iff. apply Qle_trans. Qed.

Lemma desc_total (a b : Q) : desc a b = true \/ desc b a = true.
Proof. unfold desc. destruct (asc_total a b); auto. Qed.

Lemma desc_trans (a b c : Q) : desc a b = true -> desc b c = true -> desc a c = true.
Proof. unfold desc. rewrite !Qle_bool_iff. intros; eapply Qle_trans; eauto. Qed.

Lemma leb_total (a b : nat) : Nat.leb a b = true \/ Nat.leb b a = true.
Proof. rewrite !Nat.leb_le. lia. Qed.

Lemma leb_trans (a b c : nat) :
  Nat.leb a b = true -> Nat.leb b c = true -> Nat.leb a c = true.
Proof. rewrite !Nat.leb_le. lia. Qed.

Lemma StronglySorted_nth (A : Type) (R : A -> A -> Prop) (l : list A) (d : A) :
  StronglySorted R l ->
  forall i j, i < j -> j < length l -> R (nth i l d) (nth j l d).
Proof.
  induction 1 as [|x r Hs IH Hall]; intros i j Hij Hj; simpl in Hj.
  - lia.
  - destruct j as [|j]; [lia|]. destruct i as [|i]; simpl.
    + rewrite Forall_forall in Hall. apply Hall, nth_In. lia.
    + apply IH; lia.
Qed.

(** ** The three largest distinct sizes *)

Lemma distinct_incl (xs : list Q) (t : Q) : In t (distinct xs) -> In t xs.
Proof.
  revert t; induction xs as [|x r IH]; simpl; intros t H; [assumption|].
  destruct H as [H|H]; [now left|].
  apply filter_In in H as [H _]. right. now apply IH.
Qed.

Lemma distinct_complete (xs : list Q) (t : Q) :
  In t xs -> exists t', In t' (distinct xs) /\ (t' == t)%Q.
Proof.
  induction xs as [|x r IH]; simpl; intros H; [contradiction|].
  destruct H as [-> | H].
  - exists t. split; [now left | reflexivity].
  - destruct (IH H) as (t' & Ht' & E).
    destruct (Qeq_bool t' x) eqn:Ex.
    + exists x. split; [now left|]. apply Qeq_bool_iff in Ex.
      rewrite <- Ex. exact E.
    + exists t'. split; [|exact E]. right. apply filter_In. split; [exact Ht'|].
      now rewrite Ex.
Qed.

Lemma distinct_apart (xs : list Q) :
  StronglySorted (fun a b => ~ (b == a)%Q) (distinct xs).
Proof.
  induction xs as [|x r IH]; simpl; constructor.
  - induction IH as [|y l Hs IHl Hall]; simpl; [constructor|].
    destruct (negb (Qeq_bool y x)); [|exact IHl].
    constructor; [exact IHl|].
    rewrite Forall_forall in *. intros z Hz. apply filter_In in Hz as [Hz _]. auto.
  - rewrite Forall_forall. intros z Hz. apply filter_In in Hz as [_ Hz].
    intros E. apply Qeq_bool_iff in E. rewrite E in Hz. discriminate.
Qed.

Lemma insert_desc_strict (x : Q) (l : list Q) :
  StronglySorted (fun a b => (b < a)%Q) l ->
  Forall (fun y => ~ (y == x)%Q) l ->
  StronglySorted (fun a b => (b < a)%Q) (insert_by desc (fun q => q) x l).
Proof.
  induction 1 as [|y r Hs IH Hall]; intros Hx; simpl.
  - repeat constructor.
  - inversion Hx as [|? ? Hyx Hrx]; subst.
    unfold desc at 1. destruct (Qle_bool y x) eqn:E.
    + apply Qle_bool_iff in E.
      assert (Hlt : (y < x)%Q).
      { apply Qle_lteq in E as [E|E]; [exact E | contradiction]. }
      constructor; [now constructor|].
      constructor; [exact Hlt|].
      rewrite Forall_forall in *. intros z Hz. specialize (Hall z Hz). cbv beta in Hall. lra.
    + assert (Hlt : (x < y)%Q).
      { apply Qnot_le_lt. intros H. apply Qle_bool_iff in H. congruence. }
      constructor; [now apply IH|].
      rewrite Forall_forall in *. intros z Hz.
      apply (Permutation_in _ (insert_by_perm desc (fun q => q) x r)) in Hz.
      destruct Hz as [<- | Hz]; [exact Hlt | now apply Hall].
Qed.

Lemma sort_desc_strict (l : list Q) :
  StronglySorted (fun a b => ~ (b == a)%Q) l ->
  StronglySorted (fun a b => (b < a)%Q) (sort_by desc (fun q => q) l).
Proof.
  induction 1 as [|x r Hs IH Hall]; simpl.
  - constructor.
  - apply insert_desc_strict; [exact IH|].
    rewrite Forall_forall in *. intros y Hy. apply sort_by_In in Hy. auto.
Qed.

Lemma top_of_sorted (L : list Q) (s : Q) :
  StronglySorted (fun a b => (b < a)%Q) L ->
  (exists t, In t (firstn 3 L) /\ (t == s)%Q) <->
  (exists t, In t L /\ (t == s)%Q) /\
  ~ (exists a b c, In a L /\ In b L /\ In c L /\ (b < a)%Q /\ (c < b)%Q /\ (s < c)%Q).
Proof.
  intros HS.
  assert (mono : forall i j, i < length L -> j < length L ->
                   (nth i L 0 < nth j L 0)%Q -> j < i).
  { intros i j Hi Hj Hlt. destruct (Nat.lt_trichotomy i j) as [H|[H|H]]; [| |exact H].
    - pose proof (StronglySorted_nth 0%Q HS H Hj) as H'. simpl in H'. lra.
    - subst. lra. }
  split.
  - intros (t & Ht & E). split.
    + exists t. split; [|exact E]. rewrite <- (firstn_skipn 3 L). apply in_or_app. now left.
    + intros (a & b & c & Ha & Hb & Hc & Hab & Hbc & Hsc).
      destruct (In_nth _ _ 0%Q Ht) as (i & Hi & Ei).
      rewrite length_firstn in Hi.
      rewrite nth_firstn in Ei.
      destruct (i <? 3) eqn:Hi3; [|apply Nat.ltb_ge in Hi3; lia].
      destruct (In_nth _ _ 0%Q Ha) as (ja & Hja & Eja).
      destruct (In_nth _ _ 0%Q Hb) as (jb & Hjb & Ejb).
      destruct (In_nth _ _ 0%Q Hc) as (jc & Hjc & Ejc).
      assert (ja < jb) by (apply mono; trivial; rewrite Eja, Ejb; exact Hab).
      assert (jb < jc) by (apply mono; trivial; rewrite Ejb, Ejc; exact Hbc).
      assert (jc < i) by (apply mono; trivial; try lia; rewrite Ei, Ejc, E; exact Hsc).
      lia.
  - intros ((t & Ht & E) & Hno).
    destruct (In_nth _ _ 0%Q Ht) as (i & Hi & Ei).
    destruct (Nat.lt_ge_cases i 3) as [H3|H3].
    + exists t. split; [|exact E].
      assert (Ef : nth i (firstn 3 L) 0%Q = nth i L 0%Q).
      { rewrite nth_firstn. apply Nat.ltb_lt in H3. now rewrite H3. }
      rewrite <- Ei, <- Ef. apply nth_In. rewrite length_firstn. lia.
    + exfalso. apply Hno.
      exists (nth 0 L 0%Q), (nth 1 L 0%Q), (nth 2 L 0%Q).
      repeat split; try (apply nth_In; lia).
      * apply (StronglySorted_nth 0%Q HS); lia.
      * apply (StronglySorted_nth 0%Q HS); lia.
      * rewrite <- E, <- Ei. apply (StronglySorted_nth 0%Q HS); lia.
Qed.

Lemma top3_spec (xs : list Q) (s : Q) :
  Qmem s (top3 xs) = true <-> Spec.among_top3 xs s.
Proof.
  rewrite Qmem_spec. unfold top3, Spec.among_top3.
  rewrite (top_of_sorted s (sort_desc_strict (distinct_apart xs))).
  assert (into : forall t, In t (sort_by desc (fun q => q) (distinct xs)) -> In t xs).
  { intros t Ht. apply sort_by_In in Ht. now apply distinct_incl. }
  assert (from : forall t, In t xs ->
            exists t', In t' (sort_by desc (fun q => q) (distinct xs)) /\ (t' == t)%Q).
  { intros t Ht. destruct (distinct_complete _ _ Ht) as (t' & Ht' & E).
    exists t'. split; [now apply sort_by_In | exact E]. }
  split; intros [(t & Ht & E) Hno]; split.
  - exists t. split; [now apply into | exact E].
  - intros (a & b & c & Ha & Hb & Hc & Hab & Hbc & Hsc). apply Hno.
    destruct (from a Ha) as (a' & Ha' & Ea).
    destruct (from b Hb) as (b' & Hb' & Eb).
    destruct (from c Hc) as (c' & Hc' & Ec).
    exists a', b', c'. repeat split; trivial; lra.
  - destruct (from t Ht) as (t' & Ht' & Et). exists t'. split; [exact Ht' | lra].
  - intros (a & b & c & Ha & Hb & Hc & Hab & Hbc & Hsc). apply Hno.
    exists a, b, c. repeat split; auto.
Qed.

(* ================================================================== *)
(** * Part VII. The strict heading test                                *)
(* ================================================================== *)

Lemma starts_upper_spec (U : UnicodeData) (w : pystr) :
  Sections.starts_upper U w = true <-> exists c r, w = c :: r /\ is_upper U c = true.
Proof.
  destruct w as [|c r]; simpl; split.
  - discriminate.
  - intros (c & r & E & _). discriminate.
  - intros H. now exists c, r.
  - intros (c' & r' & E & H). now inversion E; subst.
Qed.

Lemma no_trailing_punct_spec (t : pystr) :
  endswith_any t [lit "."; lit ":"; lit ";"] = false <->
  (forall body c, t = body ++ [c] -> c <> ord "." /\ c <> ord ":" /\ c <> ord ";").
Proof.
  unfold endswith_any.
  change (lit ".") with [ord "."].
  change (lit ":") with [ord ":"].
  change (lit ";") with [ord ";"].
  cbn [existsb]. rewrite orb_false_r, !orb_false_iff. split.
  - intros (H1 & H2 & H3) body c E.
    repeat split; intros ->.
    + assert (X : endswith t [ord "."] = true) by (apply endswith_char; eauto). congruence.
    + assert (X : endswith t [ord ":"] = true) by (apply endswith_char; eauto). congruence.
    + assert (X : endswith t [ord ";"] = true) by (apply endswith_char; eauto). congruence.
  - intros H. repeat split.
    + destruct (endswith t [ord "."]) eqn:E; [|reflexivity].
      apply endswith_char in E as (body & E). destruct (H _ _ E) as (X & _ & _). congruence.
    + destruct (endswith t [ord ":"]) eqn:E; [|reflexivity].
      apply endswith_char in E as (body & E). destruct (H _ _ E) as (_ & X & _). congruence.
    + destruct (endswith t [ord ";"]) eqn:E; [|reflexivity].
      apply endswith_char in E as (body & E). destruct (H _ _ E) as (_ & _ & X). congruence.
Qed.

(** C2. In the strict pass of the section pipeline a collapsed line qualifies
    as a heading exactly when its size is among the three largest distinct
    sizes of the document, it has between 2 and 4 whitespace-delimited words,
    every word starts with an uppercase character, it is at most 40
    characters long, and it does not end in a full stop, a colon or a
    semicolon. *)
Theorem strict_heading_iff (U : UnicodeData) (collapsed : list Sections.CLine)
  (ln : Sections.CLine) :
  Sections.is_head U (Sections.top_sizes collapsed) ln = true
  <-> Spec.strict_heading U collapsed ln.
Proof.
  unfold Sections.is_head, Spec.strict_heading, Sections.top_sizes.
  unfold Sections.HEADING_WORDS_MIN, Sections.HEADING_WORDS_MAX,
    Sections.MAX_HEADING_CHARS.
  cbv zeta.
  rewrite !andb_true_iff, top3_spec, !Nat.leb_le, forallb_forall, negb_true_iff,
    no_trailing_punct_spec.
  split.
  - intros ((((Hs & Hlo & Hhi) & Hup) & Hlen) & Hend).
    split; [exact Hs|]. split; [now split|]. split; [|now split].
    intros w Hw. now apply starts_upper_spec, Hup.
  - intros (Hs & (Hlo & Hhi) & Hup & Hlen & Hend).
    split; [|exact Hend]. split; [|exact Hlen]. split; [split; [exact Hs | now split]|].
    intros w Hw. now apply starts_upper_spec, Hup.
Qed.

(** C9 (as the code has it). A word whose first character is not cased does
    not pass the test [w[0].isupper()], so a line that contains such a word
    never qualifies as a strict heading. *)
Theorem uncased_word_fails_strict (U : UnicodeData) (tops : list Q)
  (ln : Sections.CLine) (c : N) (r : pystr) :
  In (c :: r) (split U (Sections.c_text ln)) ->
  is_cased U c = false ->
  Sections.starts_upper U (c :: r) = false
  /\ forallb (Sections.starts_upper U) (split U (Sections.c_text ln)) = false
  /\ Sections.is_head U tops ln = false.
Proof.
  intros Hin Hc.
  assert (Hu : is_upper U c = false).
  { unfold is_cased in Hc. apply orb_false_iff in Hc as [Hc _].
    now apply orb_false_iff in Hc as [Hc _]. }
  assert (Hall : forallb (Sections.starts_upper U) (split U (Sections.c_text ln)) = false).
  { destruct (forallb _ _) eqn:E; [|reflexivity].
    rewrite forallb_forall in E. specialize (E _ Hin). simpl in E. congruence. }
  repeat split; trivial.
  unfold Sections.is_head. cbv zeta. rewrite Hall.
  now rewrite andb_false_r.
Qed.

(** The theorem at the line of two ideographic words. *)
Lemma uncased_word_fails_strict_witness :
  Sections.starts_upper Samples.basic_db [20013; 25991]%N = false
  /\ forallb (Sections.starts_upper Samples.basic_db)
       (split Samples.basic_db (Sections.c_text Samples.cjk_line)) = false
  /\ Sections.is_head Samples.basic_db [18%Q] Samples.cjk_line = false.
Proof.
  apply (@uncased_word_fails_strict Samples.basic_db [18%Q] Samples.cjk_line
           20013%N [25991%N]).
  - vm_compute. left. reflexivity.
  - vm_compute. reflexivity.
Defined.

(** C9, refuted as stated: the line of two ideographic words meets every
    other strict criterion (size, word count, length, no trailing
    punctuation), its first character is not cased, and the test on the first
    character of its words is false, so the line is not a strict heading. *)
Lemma ideographic_line_not_strict :
  is_cased Samples.basic_db 20013%N = false
  /\ split Samples.basic_db Samples.cjk_title = [[20013; 25991]; [26631; 39064]]%N
  /\ Qmem (Sections.c_size Samples.cjk_line) [18%Q] = true
  /\ (length (Sections.c_text Samples.cjk_line) <=? Sections.MAX_HEADING_CHARS) = true
  /\ endswith_any (Sections.c_text Samples.cjk_line) [lit "."; lit ":"; lit ";"] = false
  /\ Sections.starts_upper Samples.basic_db [20013; 25991]%N = false
  /\ Sections.is_head Samples.basic_db [18%Q] Samples.cjk_line = false.
Proof. vm_compute. repeat split; reflexivity. Qed.

(** The boundary cases of the heading heuristic: five words in capitals on 38
    characters are one word too many, and three capitalised words that end
    in a full stop carry trailing punctuation; shortened by a word, or
    without the full stop, each line qualifies. *)
Example heading_boundary :
  length (lit "ANNUAL REPORT FISCAL SUMMARY OVERVIEWS") = 38
  /\ Sections.is_head Samples.basic_db [18%Q]
       (Samples.cline "ANNUAL REPORT FISCAL SUMMARY OVERVIEWS" 18) = false
  /\ Sections.is_head Samples.basic_db [18%Q]
       (Samples.cline "ANNUAL REPORT FISCAL SUMMARY" 18) = true
  /\ Sections.is_head Samples.basic_db [18%Q]
       (Samples.cline "Project Scope Overview." 18) = false
  /\ Sections.is_head Samples.basic_db [18%Q]
       (Samples.cline "Project Scope Overview" 18) = true.
Proof. vm_compute. repeat split; reflexivity. Qed.

(* ================================================================== *)
(** * Part VIII. [clean_heading]                                       *)
(* ================================================================== *)

Lemma lstrip_by_decomp (p : N -> bool) (s : pystr) :
  exists pre, s = pre ++ lstrip_by p s
              /\ Forall (fun c => p c = true) pre
              /\ (forall c r, lstrip_by p s = c :: r -> p c = false).
Proof.
  induction s as [|x s IH]; simpl.
  - exists []. repeat split; [constructor | discriminate].
  - destruct (p x) eqn:Hx.
    + destruct IH as (pre & E & Hpre & Hhd).
      exists (x :: pre). repeat split.
      * simpl. now rewrite <- E.
      * now constructor.
      * exact Hhd.
    + exists []. repeat split; [constructor|].
      intros c r E. now inversion E; subst.
Qed.

Lemma rstrip_by_decomp (p : N -> bool) (s : pystr) :
  exists tail, s = rstrip_by p s ++ tail
               /\ Forall (fun c => p c = true) tail
               /\ (forall body c, rstrip_by p s = body ++ [c] -> p c = false).
Proof.
  unfold rstrip_by.
  destruct (lstrip_by_decomp p (rev s)) as (pre & E & Hpre & Hhd).
  exists (rev pre). repeat split.
  - rewrite <- rev_app_distr, <- E. now rewrite rev_involutive.
  - now apply Forall_rev.
  - intros body c Eb. apply (Hhd c (rev body)).
    apply (f_equal (@rev N)) in Eb.
    rewrite rev_involutive, rev_app_distr in Eb. exact Eb.
Qed.

Lemma split_from_spaces (U : UnicodeData) (cur tail : pystr) :
  Forall (fun c => is_space U c = true) tail ->
  split_from U cur tail = flush cur [].
Proof.
  intros H. revert cur. induction H as [|c r Hc Hr IH]; intros cur; simpl.
  - reflexivity.
  - rewrite Hc, IH. reflexivity.
Qed.

Lemma split_from_app_spaces (U : UnicodeData) (a tail cur : pystr) :
  Forall (fun c => is_space U c = true) tail ->
  split_from U cur (a ++ tail) = split_from U cur a.
Proof.
  intros H. revert cur. induction a as [|x a IH]; intros cur; simpl.
  - now apply split_from_spaces.
  - destruct (is_space U x); now rewrite IH.
Qed.

Lemma split_lstrip (U : UnicodeData) (s : pystr) :
  split U (lstrip_by (is_space U) s) = split U s.
Proof.
  unfold split. induction s as [|x s IH]; simpl.
  - reflexivity.
  - destruct (is_space U x) eqn:Hx; simpl.
    + exact IH.
    + now rewrite Hx.
Qed.

Lemma split_strip (U : UnicodeData) (s : pystr) : split U (strip U s) = split U s.
Proof.
  unfold strip.
  destruct (rstrip_by_decomp (is_space U) (lstrip_by (is_space U) s))
    as (tail & E & Htail & _).
  rewrite <- (split_lstrip U s). rewrite E at 2.
  unfold split. now rewrite split_from_app_spaces.
Qed.

Lemma first_clause_decomp (t : pystr) :
  Forall (fun c => Sections.is_clause_sep c = false) (Sections.first_clause t)
  /\ (t = Sections.first_clause t
      \/ exists c rest, Sections.is_clause_sep c = true
                        /\ t = Sections.first_clause t ++ c :: rest).
Proof.
  induction t as [|x t [IH1 IH2]]; simpl.
  - split; [constructor | now left].
  - destruct (Sections.is_clause_sep x) eqn:Hx.
    + split; [constructor|]. right. now exists x, t.
    + split; [now constructor|].
      destruct IH2 as [E | (c & rest & Hc & E)].
      * left. now rewrite <- E.
      * right. exists c, rest. split; [exact Hc|]. simpl. now rewrite <- E.
Qed.

(** ** [capitalize] and the index scans of the interpreter *)

Lemma firstn_snoc_nth (data : pystr) (j : nat) :
  j < length data -> firstn (S j) data = firstn j data ++ [nth j data 0%N].
Proof.
  revert j. induction data as [|x data IH]; intros j Hj; simpl in Hj; [lia|].
  destruct j as [|j]; [reflexivity|].
  cbn [firstn nth app]. f_equal. apply IH. lia.
Qed.

Lemma skipn_cons_nth (data : pystr) (j : nat) :
  j < length data -> skipn j data = nth j data 0%N :: skipn (S j) data.
Proof.
  revert j. induction data as [|x data IH]; intros j Hj; simpl in Hj; [lia|].
  destruct j as [|j]; [reflexivity|].
  cbn [skipn nth]. apply IH. lia.
Qed.

Lemma cased_before_spec (U : UnicodeData) (data : pystr) (j : nat) :
  j <= length data ->
  cased_before U data j = Spec.meets_cased U (rev (firstn j data)).
Proof.
  induction j as [|j IH]; intros Hj; [reflexivity|].
  rewrite firstn_snoc_nth by lia. rewrite rev_app_distr.
  cbn [cased_before rev app Spec.meets_cased].
  destruct (is_case_ignorable U (nth j data 0%N)); [apply IH; lia | reflexivity].
Qed.

Lemma cased_after_spec (U : UnicodeData) (data : pystr) (n j : nat) :
  j + n = length data ->
  cased_after U data j n = Spec.meets_cased U (skipn j data).
Proof.
  revert j. induction n as [|n IH]; intros j Hj.
  - rewrite skipn_all2 by lia. reflexivity.
  - rewrite skipn_cons_nth by lia. cbn [cased_after Spec.meets_cased].
    destruct (is_case_ignorable U (nth j data 0%N)); [apply IH; lia | reflexivity].
Qed.

Lemma lower_ucs4_spec (U : UnicodeData) (pre : pystr) (c : N) (after : pystr) :
  lower_ucs4 U (pre ++ c :: after) (length pre) c
  = Spec.lower_in_context U (rev pre) c after.
Proof.
  unfold lower_ucs4, Spec.lower_in_context, handle_capital_sigma.
  destruct (N.eqb c CAPITAL_SIGMA); [|reflexivity].
  rewrite cased_before_spec by (rewrite length_app; lia).
  rewrite cased_after_spec by (rewrite length_app; simpl; lia).
  rewrite firstn_app, Nat.sub_diag, firstn_all. cbn [firstn]. rewrite app_nil_r.
  replace (skipn (S (length pre)) (pre ++ c :: after)) with after; [reflexivity|].
  rewrite skipn_app, skipn_all2 by lia.
  replace (S (length pre) - length pre) with 1 by lia. reflexivity.
Qed.

Lemma lower_scan_spec (U : UnicodeData) (rest pre : pystr) :
  flat_map (fun i => lower_ucs4 U (pre ++ rest) i (nth i (pre ++ rest) 0%N))
           (seq (length pre) (length rest))
  = Spec.lower_tail U (rev pre) rest.
Proof.
  revert pre. induction rest as [|c after IH]; intros pre; [reflexivity|].
  cbn [length seq flat_map Spec.lower_tail].
  rewrite app_nth2, Nat.sub_diag by lia. cbn [nth].
  rewrite lower_ucs4_spec. f_equal.
  specialize (IH (pre ++ [c])).
  rewrite <- app_assoc, length_app, rev_app_distr in IH. cbn [app length rev] in IH.
  rewrite Nat.add_1_r in IH. exact IH.
Qed.

(** [capitalize] title-cases the first character and lower-cases every other
    character in its context. *)
Lemma capitalize_spec (U : UnicodeData) (c : N) (r : pystr) :
  capitalize U (c :: r) = to_title U c ++ Spec.lower_tail U [c] r.
Proof.
  unfold capitalize. f_equal.
  cbn [length]. rewrite Nat.sub_succ, Nat.sub_0_r.
  apply (lower_scan_spec U r [c]).
Qed.

(** Without a capital sigma the lower-casing is character by character. *)
Lemma lower_tail_plain (U : UnicodeData) (rest before : pystr) :
  ~ In CAPITAL_SIGMA rest ->
  Spec.lower_tail U before rest = flat_map (to_lower U) rest.
Proof.
  revert before. induction rest as [|c after IH]; intros before H; [reflexivity|].
  cbn [Spec.lower_tail flat_map]. unfold Spec.lower_in_context.
  destruct (N.eqb c CAPITAL_SIGMA) eqn:E.
  - apply N.eqb_eq in E. exfalso. apply H. now left.
  - f_equal. apply IH. intros X. apply H. now right.
Qed.

(** C7 (as the code has it). [clean_heading] strips the trailing full stops,
    colons and semicolons of the raw heading, keeps the text before the first
    colon, hyphen or en dash, and joins with single spaces the
    whitespace-delimited tokens of that text, each capitalised: its first
    character title-cased and every other character lower-cased in its
    context, a capital sigma to the final sigma when a cased character
    precedes it and none follows (case-ignorable characters skipped), to the
    small sigma otherwise, and any other character by the table. *)
Theorem clean_heading_spec (U : UnicodeData) (s : pystr) :
  exists t clause,
    (exists tail, s = t ++ tail
                  /\ Forall (fun c => Sections.is_trailing_punct c = true) tail)
    /\ (forall body c, t = body ++ [c] -> Sections.is_trailing_punct c = false)
    /\ Forall (fun c => Sections.is_clause_sep c = false) clause
    /\ (t = clause
        \/ exists c rest, Sections.is_clause_sep c = true /\ t = clause ++ c :: rest)
    /\ Sections.clean_heading U s
       = join [SPACE] (map (capitalize U) (split U clause))
    /\ (forall w, In w (split U clause) ->
          exists c r, w = c :: r
                      /\ capitalize U w = to_title U c ++ Spec.lower_tail U [c] r
                      /\ (~ In CAPITAL_SIGMA r ->
                          capitalize U w
                          = to_title U c ++ flat_map (to_lower U) r)).
Proof.
  exists (rstrip_by Sections.is_trailing_punct s).
  exists (Sections.first_clause (rstrip_by Sections.is_trailing_punct s)).
  destruct (rstrip_by_decomp Sections.is_trailing_punct s) as (tail & E & Htail & Hlast).
  destruct (first_clause_decomp (rstrip_by Sections.is_trailing_punct s)) as [Hc Hd].
  split; [now exists tail|].
  split; [exact Hlast|].
  split; [exact Hc|].
  split; [exact Hd|].
  split.
  - unfold Sections.clean_heading. cbv zeta. now rewrite split_strip.
  - intros w Hw. destruct (split_word_nonempty _ _ _ Hw) as (c & r & ->).
    exists c, r. split; [reflexivity|]. split; [apply capitalize_spec|].
    intros H. rewrite capitalize_spec. f_equal. now apply lower_tail_plain.
Qed.

(** C7, refuted as stated: on the heading [PDF Tools] the remainder of the
    first token is lower-cased, where title-casing that leaves the remainder
    unchanged would keep the heading as it is. *)
Lemma clean_heading_lowers_rest :
  Sections.clean_heading Samples.basic_db (lit "PDF Tools") = lit "Pdf Tools"
  /\ Spec.clean_heading_keep_rest Samples.basic_db (lit "PDF Tools") = lit "PDF Tools"
  /\ Sections.clean_heading Samples.basic_db (lit "PDF Tools")
     <> Spec.clean_heading_keep_rest Samples.basic_db (lit "PDF Tools").
Proof.
  repeat split; try (vm_compute; reflexivity).
  vm_compute. discriminate.
Qed.

(** The sigma of a Greek heading in capitals: final at the end of a word,
    small inside one. *)
Example greek_heading_sample :
  Sections.clean_heading Samples.greek_db Samples.greek_heading
  = [927; 948; 959; 962; 32; 927; 963; 959]%N.
Proof. vm_compute. reflexivity. Qed.

(* ================================================================== *)
(** * Part IX. De-duplication by key                                   *)
(* ================================================================== *)

Section FirstBy.
Variable A : Type.
Variable key : A -> pystr.

Lemma filter_filter (p q : A -> bool) (l : list A) :
  filter p (filter q l) = filter (fun x => q x && p x) l.
Proof.
  induction l as [|x l IH]; simpl; [reflexivity|].
  destruct (q x); simpl; [destruct (p x)|]; now rewrite IH.
Qed.

(** Dropping a key that [seen] already excludes changes nothing. *)
Lemma filter_seen_drop (seen : list pystr) (k : pystr) (l : list A) :
  In k seen ->
  filter (fun x => negb (str_mem (key x) seen))
         (filter (fun y => negb (str_eqb (key y) k)) l)
  = filter (fun x => negb (str_mem (key x) seen)) l.
Proof.
  intros Hk. rewrite filter_filter. apply filter_ext. intros x.
  destruct (str_eqb (key x) k) eqn:E; simpl; [|reflexivity].
  apply str_eqb_eq in E. rewrite E.
  apply str_mem_In in Hk. now rewrite Hk.
Qed.

(** Excluding one more key is dropping it first. *)
Lemma filter_seen_cons (seen : list pystr) (k : pystr) (l : list A) :
  filter (fun x => negb (str_mem (key x) (k :: seen))) l
  = filter (fun x => negb (str_mem (key x) seen))
           (filter (fun y => negb (str_eqb (key y) k)) l).
Proof.
  rewrite filter_filter. apply filter_ext. intros x.
  unfold str_mem. simpl. now rewrite negb_orb.
Qed.

Lemma filter_seen_nil (l : list A) :
  filter (fun x => negb (str_mem (key x) [])) l = l.
Proof.
  induction l as [|x l IH]; [reflexivity|].
  cbn [filter]. unfold str_mem at 1. cbn [existsb negb]. f_equal. exact IH.
Qed.

Lemma first_by_incl (l : list A) (x : A) : In x (Spec.first_by key l) -> In x l.
Proof.
  revert x; induction l as [|y l IH]; simpl; intros x H; [assumption|].
  destruct H as [H|H]; [now left|].
  apply filter_In in H as [H _]. right. now apply IH.
Qed.

Lemma first_by_keys (l : list A) (k : pystr) :
  In k (map key l) -> In k (map key (Spec.first_by key l)).
Proof.
  induction l as [|y l IH]; simpl; intros H; [assumption|].
  destruct (str_eqb k (key y)) eqn:E.
  - apply str_eqb_eq in E. now left.
  - right. destruct H as [H|H]; [apply str_eqb_neq in E; congruence|].
    specialize (IH H). apply in_map_iff in IH as (x & Hx & Hin).
    apply in_map_iff. exists x. split; [exact Hx|].
    apply filter_In. split; [exact Hin|]. now rewrite Hx, E.
Qed.

Lemma NoDup_map_filter (p : A -> bool) (l : list A) :
  NoDup (map key l) -> NoDup (map key (filter p l)).
Proof.
  induction l as [|x l IH]; simpl; intros H; [constructor|].
  inversion H as [|? ? Hx Hl]; subst.
  destruct (p x); simpl; [|now apply IH].
  constructor; [|now apply IH].
  intros Hin. apply Hx. apply in_map_iff in Hin as (y & Hy & Hin).
  apply filter_In in Hin as [Hin _]. apply in_map_iff. eauto.
Qed.

Lemma first_by_NoDup (l : list A) : NoDup (map key (Spec.first_by key l)).
Proof.
  induction l as [|x l IH]; simpl; constructor.
  - intros Hin. apply in_map_iff in Hin as (y & Hy & Hin).
    apply filter_In in Hin as [_ Hin].
    rewrite Hy, str_eqb_refl in Hin. discriminate.
  - now apply NoDup_map_filter.
Qed.

(** An element kept by [first_by] is the earliest of the list with its key. *)
Lemma first_by_earliest (l : list A) (x : A) :
  In x (Spec.first_by key l) ->
  exists l1 l2, l = l1 ++ x :: l2 /\ ~ In (key x) (map key l1).
Proof.
  revert x; induction l as [|y l IH]; simpl; intros x H; [contradiction|].
  destruct H as [<- | H].
  - exists [], l. split; [reflexivity | intros []].
  - apply filter_In in H as [H Hne].
    destruct (IH _ H) as (l1 & l2 & E & Hk).
    exists (y :: l1), l2. split; [simpl; now rewrite E|].
    simpl. intros [Hy | Hin]; [|contradiction].
    rewrite Hy, str_eqb_refl in Hne. discriminate.
Qed.

(** The number of elements kept is at least the number of distinct keys. *)
Lemma first_by_covers (l : list A) (ks : list pystr) :
  NoDup ks -> (forall k, In k ks -> In k (map key l)) ->
  length ks <= length (Spec.first_by key l).
Proof.
  intros Hnd Hks. rewrite <- (length_map key (Spec.first_by key l)).
  apply NoDup_incl_length; [exact Hnd|].
  intros k Hk. now apply first_by_keys, Hks.
Qed.

End FirstBy.

(* ================================================================== *)
(** * Part X. The outline extractor                                    *)
(* ================================================================== *)

Lemma outline_loop_spec (m : list (Q * Outline.HeadingLevel))
  (lines : list Outline.Line) (acc : list Outline.OutlineEntry) (seen : list pystr) :
  Outline.outline_loop m lines acc seen
  = acc ++ filter (fun e => negb (str_mem (Outline.e_text e) seen))
             (Spec.first_by Outline.e_text (Spec.heading_entries m lines)).
Proof.
  revert acc seen. induction lines as [|l rest IH]; intros acc seen; simpl.
  - now rewrite app_nil_r.
  - destruct (Outline.get_level m (Outline.l_size l)) as [lvl|]; simpl.
    + destruct (str_mem (Outline.l_text l) seen) eqn:Hseen; simpl.
      * rewrite IH. f_equal.
        rewrite filter_seen_drop; [reflexivity | now apply str_mem_In].
      * rewrite IH, <- app_assoc, filter_seen_cons. reflexivity.
    + apply IH.
Qed.

Lemma build_outline_spec (lines : list Outline.Line) :
  Outline.build_outline lines
  = Spec.first_by Outline.e_text
      (Spec.heading_entries (Outline.level_map (Outline.top_sizes lines)) lines).
Proof.
  unfold Outline.build_outline. rewrite outline_loop_spec.
  now rewrite filter_seen_nil.
Qed.

(** C6. No two entries of an extracted outline have the same text: the
    outline is the list of the heading-level lines in document order with
    only the first line of each text kept, so an entry is the earliest
    heading-level line of its text and every later line of that text, on
    any page, is dropped. *)
Theorem outline_texts_unique (U : UnicodeData) (doc : Document) (stem : pystr) :
  let lines := Outline.collect_lines U doc in
  let headings :=
    Spec.heading_entries (Outline.level_map (Outline.top_sizes lines)) lines in
  let out := Outline.outline (Outline.extract_outline U doc stem) in
  NoDup (map Outline.e_text out)
  /\ out = Spec.first_by Outline.e_text headings
  /\ (forall e, In e out ->
        exists before after,
          headings = before ++ e :: after
          /\ ~ In (Outline.e_text e) (map Outline.e_text before))
  /\ (forall e, In e headings -> In (Outline.e_text e) (map Outline.e_text out)).
Proof.
  cbv zeta. unfold Outline.extract_outline. cbn [Outline.outline].
  rewrite build_outline_spec.
  split; [apply first_by_NoDup|].
  split; [reflexivity|].
  split.
  - intros e He. now apply first_by_earliest.
  - intros e He. apply first_by_keys. now apply in_map.
Qed.

Lemma get_level_found (s : Q) (tops : list Q) (lvls : list Outline.HeadingLevel) :
  length tops <= length lvls ->
  Qmem s tops = true ->
  exists lvl, Outline.get_level (combine tops lvls) s = Some lvl.
Proof.
  revert lvls. induction tops as [|t tops IH]; intros lvls Hlen Hmem.
  - discriminate.
  - destruct lvls as [|lvl lvls]; [simpl in Hlen; lia|].
    simpl in *. rewrite (Qeq_bool_comm t s).
    destruct (Qeq_bool s t); [eauto|].
    apply IH; [lia | exact Hmem].
Qed.

Lemma top_line_topmost (lines : list Outline.Line) (l : Outline.Line) :
  Outline.top_line lines = Some l ->
  In l lines /\ Outline.l_page l = 1
  /\ (forall l', In l' lines -> Outline.l_page l' = 1 ->
                 (Outline.l_y0 l <= Outline.l_y0 l')%Q).
Proof.
  unfold Outline.top_line. intros H.
  pose proof (sort_by_sorted asc Outline.l_y0 asc_total asc_trans
                (Outline.first_page lines)) as HS.
  assert (Hin : forall x, In x (sort_by asc Outline.l_y0 (Outline.first_page lines))
                          <-> In x lines /\ Outline.l_page x = 1).
  { intros x. rewrite sort_by_In. unfold Outline.first_page.
    rewrite filter_In, Nat.eqb_eq. reflexivity. }
  destruct (sort_by asc Outline.l_y0 (Outline.first_page lines)) as [|h rest];
    [discriminate|].
  inversion H; subst h.
  destruct (proj1 (Hin l) (or_introl eq_refl)) as [Hl Hp].
  repeat split; trivial.
  intros l' Hl' Hp'.
  destruct (proj2 (Hin l') (conj Hl' Hp')) as [<- | Hr].
  - apply Qle_refl.
  - inversion HS as [|? ? _ Hall]; subst.
    rewrite Forall_forall in Hall. specialize (Hall _ Hr).
    now apply Qle_bool_iff.
Qed.

(** C10. The title line is not kept out of the outline: when the topmost
    line of page 1 (a line of page 1 with the smallest [avg_y0]) has a size
    among the three largest distinct sizes of the document, its text is the
    title of the document and is also the text of an entry of the outline. *)
Theorem title_line_in_outline (U : UnicodeData) (doc : Document) (stem : pystr)
  (l : Outline.Line) :
  Outline.top_line (Outline.collect_lines U doc) = Some l ->
  Spec.among_top3 (map Outline.l_size (Outline.collect_lines U doc)) (Outline.l_size l) ->
  (In l (Outline.collect_lines U doc)
   /\ Outline.l_page l = 1
   /\ forall l', In l' (Outline.collect_lines U doc) -> Outline.l_page l' = 1 ->
                 (Outline.l_y0 l <= Outline.l_y0 l')%Q)
  /\ Outline.title (Outline.extract_outline U doc stem) = Outline.l_text l
  /\ exists e, In e (Outline.outline (Outline.extract_outline U doc stem))
               /\ Outline.e_text e = Outline.l_text l.
Proof.
  intros Htop Hsize.
  split; [now apply top_line_topmost|].
  destruct (top_line_topmost _ Htop) as (Hin & _ & _).
  split.
  - unfold Outline.extract_outline, Outline.choose_title. cbn [Outline.title].
    now rewrite Htop.
  - unfold Outline.extract_outline. cbn [Outline.outline].
    rewrite build_outline_spec.
    apply top3_spec in Hsize.
    destruct (@get_level_found (Outline.l_size l)
                (Outline.top_sizes (Outline.collect_lines U doc))
                [Outline.H1; Outline.H2; Outline.H3]) as (lvl & Hlvl).
    + unfold Outline.top_sizes, top3. rewrite length_firstn.
      change (length [Outline.H1; Outline.H2; Outline.H3]) with 3.
      apply Nat.le_min_l.
    + exact Hsize.
    + cut (In (Outline.l_text l)
               (map Outline.e_text
                  (Spec.first_by Outline.e_text
                     (Spec.heading_entries
                        (Outline.level_map
                           (Outline.top_sizes (Outline.collect_lines U doc)))
                        (Outline.collect_lines U doc))))).
      { intros X. apply in_map_iff in X as (e & He & Hine). eauto. }
      apply first_by_keys. apply in_map_iff.
      exists {| Outline.level := lvl; Outline.e_text := Outline.l_text l;
                Outline.e_page := Outline.l_page l |}.
      split; [reflexivity|].
      unfold Spec.heading_entries. apply in_flat_map. exists l.
      split; [exact Hin|]. unfold Outline.level_map. rewrite Hlvl. now left.
Qed.

(** Title selection on a sample. *)
Example title_sample :
  Outline.choose_title
    [ {| Outline.l_page := 1; Outline.l_text := lit "Body";
         Outline.l_size := 10%Q; Outline.l_y0 := 120%Q |};
      {| Outline.l_page := 1; Outline.l_text := lit "Report Title";
         Outline.l_size := 20%Q; Outline.l_y0 := 45%Q |};
      {| Outline.l_page := 1; Outline.l_text := lit "Footer";
         Outline.l_size := 8%Q; Outline.l_y0 := 200%Q |} ]
    (lit "report")
  = lit "Report Title".
Proof. vm_compute. reflexivity. Qed.

(** The theorem at the sample report, whose title line has the largest size. *)
Lemma title_line_in_outline_witness :
  Outline.title (Outline.extract_outline Samples.basic_db Samples.report_doc (lit "report"))
  = lit "Report Title"
  /\ exists e,
       In e (Outline.outline
               (Outline.extract_outline Samples.basic_db Samples.report_doc (lit "report")))
       /\ Outline.e_text e = lit "Report Title".
Proof.
  apply (@title_line_in_outline Samples.basic_db Samples.report_doc (lit "report")
           {| Outline.l_page := 1; Outline.l_text := lit "Report Title";
              Outline.l_size := 20%Q; Outline.l_y0 := 45%Q |}).
  - vm_compute. reflexivity.
  - apply top3_spec. vm_compute. reflexivity.
Defined.

(** ** Lines and pages *)

Lemma enumerate_In (A : Type) (l : list A) (start i : nat) (x : A) :
  In (i, x) (enumerate start l) -> start <= i /\ nth_error l (i - start) = Some x.
Proof.
  revert start. induction l as [|y l IH]; intros start H; simpl in H; [contradiction|].
  destruct H as [H|H].
  - inversion H; subst. split; [lia|]. now rewrite Nat.sub_diag.
  - apply IH in H as [Hle Hn]. split; [lia|].
    replace (i - start) with (S (i - S start)) by lia. exact Hn.
Qed.

Lemma place_from (P : Outline.Span -> Prop) (s : Outline.Span)
  (bs bs' : list (list Outline.Span)) :
  Outline.place s bs = Some bs' ->
  P s -> Forall (Forall P) bs -> Forall (Forall P) bs'.
Proof.
  revert bs'. induction bs as [|b rest IH]; intros bs' H Hs Hbs; simpl in H.
  - discriminate.
  - inversion Hbs as [|? ? Hb Hrest]; subst.
    assert (Hskip : option_map (cons b) (Outline.place s rest) = Some bs' ->
                    Forall (Forall P) bs').
    { destruct (Outline.place s rest) as [r'|]; [|discriminate].
      intros E. inversion E; subst. constructor; [exact Hb | now apply IH]. }
    destruct b as [|s0 b']; [now apply Hskip|].
    destruct (Outline.same_row s0 s); [|now apply Hskip].
    inversion H; subst. constructor; [|exact Hrest].
    change (Forall P ((s0 :: b') ++ [s])). apply Forall_app. split; [exact Hb | now constructor].
Qed.

Lemma bucket_spans_from (P : Outline.Span -> Prop)
  (spans : list Outline.Span) :
  Forall P spans -> Forall (Forall P) (Outline.bucket_spans spans).
Proof.
  unfold Outline.bucket_spans.
  assert (G : forall bs, Forall P spans -> Forall (Forall P) bs ->
                         Forall (Forall P) (fold_left Outline.bucket_step spans bs)).
  { induction spans as [|s rest IH]; intros bs Hsp Hbs; simpl; [exact Hbs|].
    inversion Hsp as [|? ? Hs Hrest]; subst.
    apply IH; [exact Hrest|].
    unfold Outline.bucket_step.
    destruct (Outline.place s bs) as [bs'|] eqn:E.
    - now apply (@place_from P s bs bs' E).
    - apply Forall_app. split; [exact Hbs | repeat constructor; exact Hs]. }
  intros H. apply G; [exact H | constructor].
Qed.

(** The outline pipeline buckets page by page: the spans of a bucket that
    yields a line of page [p] are all spans of the [p]-th page. *)
Lemma outline_bucket_one_page (U : UnicodeData) (doc : Document) (p : nat)
  (b : list Outline.Span) (s : Outline.Span) :
  In (p, b) (Outline.page_buckets U doc) -> In s b ->
  exists page, 1 <= p /\ nth_error doc (p - 1) = Some page
               /\ In s (Outline.collect_spans U page).
Proof.
  unfold Outline.page_buckets. intros H Hs.
  apply in_flat_map in H as ([p' page] & Hen & Hb).
  apply in_map_iff in Hb as (b' & E & Hb). inversion E; subst p' b'.
  apply enumerate_In in Hen as [Hle Hn].
  exists page. repeat split; trivial.
  pose proof (@bucket_spans_from (fun x => In x (Outline.collect_spans U page))
                (Outline.collect_spans U page)) as F.
  rewrite Forall_forall in F. specialize (F (fun x Hx => Hx)).
  rewrite Forall_forall in F. specialize (F _ Hb).
  rewrite Forall_forall in F. now apply F.
Qed.

Lemma outline_line_page (U : UnicodeData) (p : nat) (b : list Outline.Span)
  (l : Outline.Line) :
  In l (Outline.build_line U p b) -> Outline.l_page l = p.
Proof.
  unfold Outline.build_line.
  destruct (Outline.has_letter U _); simpl; [|contradiction].
  intros [<- | []]. reflexivity.
Qed.

(** C1, on the section pipeline. The spans of all pages are sorted by [y0]
    in one list and bucketed together: in the document of two pages with one
    span each at the same height, the single bucket holds the span of page 1
    and the span of page 2, and the collapsed line, labelled page 1, joins the
    two texts. *)
Theorem section_line_mixes_pages :
  Sections.line_buckets (Sections.collect_spans Samples.basic_db Samples.two_page_doc)
  = [ [ {| Sections.pg := 1; Sections.txt := lit "Alpha"; Sections.size := 12%Q;
           Sections.y0 := 100%Q; Sections.x0 := 50%Q |};
        {| Sections.pg := 2; Sections.txt := lit "Beta"; Sections.size := 12%Q;
           Sections.y0 := 100%Q; Sections.x0 := 60%Q |} ] ]
  /\ Sections.collapsed_lines Samples.basic_db
       (Sections.collect_spans Samples.basic_db Samples.two_page_doc)
     = [ {| Sections.c_page := 1; Sections.c_text := lit "Alpha Beta";
            Sections.c_size := 12%Q |} ]
  /\ map fst (Outline.page_buckets Samples.basic_db Samples.two_page_doc) = [1; 2].
Proof. vm_compute. repeat split; reflexivity. Qed.

(* ================================================================== *)
(** * Part XI. Strict pass, fallback pass and merge                    *)
(* ================================================================== *)

Lemma firstn_exact (A : Type) (l r : list A) (n : nat) :
  length l = n -> firstn n (l ++ r) = l.
Proof.
  intros <-. rewrite firstn_app, Nat.sub_diag, firstn_all. simpl.
  apply app_nil_r.
Qed.

Lemma merge_loop_spec (secs merged : list Sections.Section) (seen : list pystr) :
  length merged < Sections.TOP_K_SECTIONS ->
  Sections.merge_loop secs merged seen
  = firstn Sections.TOP_K_SECTIONS
      (merged ++ filter (fun s => negb (str_mem (Sections.section_title s) seen))
                   (Spec.first_by Sections.section_title secs)).
Proof.
  revert merged seen. induction secs as [|sec rest IH]; intros merged seen Hlen.
  - cbn [Sections.merge_loop Spec.first_by filter].
    rewrite app_nil_r. symmetry. apply firstn_all2. lia.
  - cbn [Sections.merge_loop Spec.first_by filter].
    destruct (str_mem (Sections.section_title sec) seen) eqn:Hseen; cbn [negb].
    + assert (E : (Sections.TOP_K_SECTIONS <=? length merged) = false)
        by (apply Nat.leb_gt; exact Hlen).
      rewrite E, IH by exact Hlen.
      rewrite filter_seen_drop; [reflexivity | now apply str_mem_In].
    + destruct (Sections.TOP_K_SECTIONS <=? length (merged ++ [sec])) eqn:E.
      * apply Nat.leb_le in E. rewrite length_app in E. cbn [length] in E.
        symmetry.
        match goal with
        | |- firstn _ (merged ++ sec :: ?x) = _ =>
            replace (merged ++ sec :: x) with ((merged ++ [sec]) ++ x)
              by (now rewrite <- app_assoc)
        end.
        apply firstn_exact.
        rewrite length_app. cbn [length]. unfold Sections.TOP_K_SECTIONS in *. lia.
      * apply Nat.leb_gt in E. rewrite IH by exact E.
        rewrite <- app_assoc, filter_seen_cons. reflexivity.
Qed.

Lemma fallback_heading_iff (U : UnicodeData) (collapsed : list Sections.CLine)
  (ln : Sections.CLine) :
  Sections.is_fallback_head U (Sections.top_sizes collapsed) ln = true
  <-> Spec.among_top3 (map Sections.c_size collapsed) (Sections.c_size ln)
      /\ length (split U (Sections.c_text ln)) <= 8.
Proof.
  unfold Sections.is_fallback_head, Sections.top_sizes.
  now rewrite andb_true_iff, top3_spec, Nat.leb_le.
Qed.

(** C3. When the strict pass yields fewer than 5 sections, the fallback pass
    (top-3 size and at most 8 words) runs and [extract_sections] returns the
    strict sections followed by the fallback sections, with only the earliest
    section of each title kept, cut at 5; when the strict pass yields 5
    sections or more, it returns the first 5 strict sections. *)
Theorem fallback_merge (U : UnicodeData) (doc : Document) :
  let collapsed := Sections.collapsed_lines U (Sections.collect_spans U doc) in
  let strict := Sections.strict_pass U collapsed in
  let fallback :=
    Sections.segment
      (fun ln => Qmem (Sections.c_size ln) (Sections.top_sizes collapsed)
                 && (length (split U (Sections.c_text ln)) <=? 8))
      collapsed [] None in
  Sections.extract_sections U doc
  = if length strict <? 5
    then firstn 5 (Spec.first_by Sections.section_title (strict ++ fallback))
    else firstn 5 strict.
Proof.
  cbv zeta. unfold Sections.extract_sections.
  assert (G : forall spans,
    Sections.sections_of U (Sections.collapsed_lines U spans)
    = if length (Sections.strict_pass U (Sections.collapsed_lines U spans)) <? 5
      then firstn 5
             (Spec.first_by Sections.section_title
                (Sections.strict_pass U (Sections.collapsed_lines U spans)
                 ++ Sections.fallback_pass U (Sections.collapsed_lines U spans)))
      else firstn 5 (Sections.strict_pass U (Sections.collapsed_lines U spans))).
  { intros spans. unfold Sections.sections_of. cbv zeta.
    change Sections.TOP_K_SECTIONS with 5.
    destruct (length _ <? 5); [|reflexivity].
    change 5 with Sections.TOP_K_SECTIONS.
    rewrite merge_loop_spec by (unfold Sections.TOP_K_SECTIONS; cbn [length]; lia).
    rewrite app_nil_l, filter_seen_nil. reflexivity. }
  destruct (Sections.collect_spans U doc) as [|sp spans] eqn:E.
  - reflexivity.
  - apply G.
Qed.

(** The fallback on a sample: the strict pass finds three sections, the
    fallback pass makes a section of every line, and the result is the three
    strict sections followed by the first two fallback sections with a new
    title. *)
Example fallback_sample :
  map Sections.section_title
    (Sections.strict_pass Samples.basic_db
       (Sections.collapsed_lines Samples.basic_db
          (Sections.collect_spans Samples.basic_db Samples.chapters_doc)))
  = [lit "Chapter One"; lit "Chapter Two"; lit "Chapter Three"]
  /\ map Sections.section_title
       (Sections.extract_sections Samples.basic_db Samples.chapters_doc)
     = [lit "Chapter One"; lit "Chapter Two"; lit "Chapter Three";
        lit "body text here."; lit "more text."].
Proof. split; vm_compute; reflexivity. Qed.

(* ================================================================== *)
(** * Part XII. Ranking and selection                                  *)
(* ================================================================== *)

Lemma enumerate_length (A : Type) (l : list A) (start : nat) :
  length (enumerate start l) = length l.
Proof.
  revert start. induction l as [|x l IH]; intros start; simpl; [reflexivity|].
  now rewrite IH.
Qed.

Lemma enumerate_fst (A : Type) (l : list A) (start : nat) :
  map fst (enumerate start l) = seq start (length l).
Proof.
  revert start. induction l as [|x l IH]; intros start; simpl; [reflexivity|].
  now rewrite IH.
Qed.

Lemma enumerate_snd (A : Type) (l : list A) (start : nat) :
  map snd (enumerate start l) = l.
Proof.
  revert start. induction l as [|x l IH]; intros start; simpl; [reflexivity|].
  now rewrite IH.
Qed.

Lemma StronglySorted_filter (A : Type) (R : A -> A -> Prop) (p : A -> bool)
  (l : list A) : StronglySorted R l -> StronglySorted R (filter p l).
Proof.
  induction 1 as [|x l Hs IH Hall]; simpl; [constructor|].
  destruct (p x); [|exact IH].
  constructor; [exact IH|].
  rewrite Forall_forall in *. intros y Hy. apply filter_In in Hy as [Hy _]. auto.
Qed.

Lemma StronglySorted_firstn (A : Type) (R : A -> A -> Prop) (n : nat)
  (l : list A) : StronglySorted R l -> StronglySorted R (firstn n l).
Proof.
  intros H. revert n. induction H as [|x l Hs IH Hall]; intros [|n]; simpl;
    try constructor.
  - apply IH.
  - rewrite Forall_forall in *. intros y Hy. apply Hall.
    rewrite <- (firstn_skipn n l). apply in_or_app. now left.
Qed.

Lemma StronglySorted_map (A B : Type) (R : B -> B -> Prop) (f : A -> B)
  (l : list A) :
  StronglySorted (fun a b => R (f a) (f b)) l -> StronglySorted R (map f l).
Proof.
  induction 1 as [|x l Hs IH Hall]; simpl; constructor; [exact IH|].
  rewrite Forall_forall in *. intros y Hy.
  apply in_map_iff in Hy as (z & <- & Hz). auto.
Qed.

Lemma StronglySorted_after (A : Type) (R : A -> A -> Prop) (l1 l2 : list A)
  (x y : A) :
  StronglySorted R (l1 ++ x :: l2) -> In y l2 -> R x y.
Proof.
  induction l1 as [|z l1 IH]; simpl; intros H Hy.
  - inversion H as [|? ? _ Hall]; subst. rewrite Forall_forall in Hall. auto.
  - inversion H; subst. auto.
Qed.

Lemma first_by_sorted (A : Type) (R : A -> A -> Prop) (key : A -> pystr)
  (l : list A) : StronglySorted R l -> StronglySorted R (Spec.first_by key l).
Proof.
  induction 1 as [|x l Hs IH Hall]; simpl; constructor.
  - now apply StronglySorted_filter.
  - rewrite Forall_forall in *. intros y Hy.
    apply filter_In in Hy as [Hy _]. apply Hall. eapply first_by_incl; eauto.
Qed.

Lemma select_loop_spec (U : UnicodeData) (scored final : list Sections.Scored)
  (seen : list pystr) :
  length final < Sections.TOP_K_SECTIONS ->
  Sections.select_loop U scored final seen
  = firstn Sections.TOP_K_SECTIONS
      (final ++ map (Sections.with_clean_title U)
                  (filter (fun s => negb (str_mem (Sections.s_filename s) seen))
                     (Spec.first_by Sections.s_filename scored))).
Proof.
  revert final seen. induction scored as [|s rest IH]; intros final seen Hlen.
  - cbn [Sections.select_loop Spec.first_by filter map].
    rewrite app_nil_r. symmetry. apply firstn_all2. lia.
  - cbn [Sections.select_loop Spec.first_by filter].
    destruct (str_mem (Sections.s_filename s) seen) eqn:Hseen; cbn [negb].
    + assert (E : (length final =? Sections.TOP_K_SECTIONS) = false)
        by (apply Nat.eqb_neq; lia).
      rewrite E, IH by exact Hlen.
      rewrite filter_seen_drop; [reflexivity | now apply str_mem_In].
    + cbn [map].
      destruct (length (final ++ [Sections.with_clean_title U s])
                =? Sections.TOP_K_SECTIONS) eqn:E.
      * apply Nat.eqb_eq in E. symmetry.
        match goal with
        | |- firstn _ (final ++ ?c :: ?x) = _ =>
            replace (final ++ c :: x) with ((final ++ [c]) ++ x)
              by (now rewrite <- app_assoc)
        end.
        now apply firstn_exact.
      * apply Nat.eqb_neq in E.
        assert (Hlen' : length (final ++ [Sections.with_clean_title U s])
                        < Sections.TOP_K_SECTIONS).
        { rewrite length_app in *. cbn [length] in *. lia. }
        rewrite IH by exact Hlen'.
        rewrite <- app_assoc, filter_seen_cons. reflexivity.
Qed.

Lemma select_loop_first (U : UnicodeData) (scored : list Sections.Scored) :
  Sections.select_loop U scored [] []
  = map (Sections.with_clean_title U)
      (firstn Sections.TOP_K_SECTIONS (Spec.first_by Sections.s_filename scored)).
Proof.
  rewrite select_loop_spec by (unfold Sections.TOP_K_SECTIONS; cbn [length]; lia).
  rewrite app_nil_l, filter_seen_nil. apply firstn_map.
Qed.

Lemma assign_ranks_sec (final : list Sections.Scored) :
  map Sections.r_sec (Sections.assign_ranks final) = final.
Proof.
  unfold Sections.assign_ranks. rewrite map_map.
  rewrite <- (enumerate_snd final 1) at 2.
  apply map_ext. now intros [i s].
Qed.

Lemma assign_ranks_rank (final : list Sections.Scored) :
  map Sections.importance_rank (Sections.assign_ranks final) = seq 1 (length final).
Proof.
  unfold Sections.assign_ranks. rewrite map_map.
  rewrite <- (enumerate_fst final 1).
  apply map_ext. now intros [i s].
Qed.

Lemma rank_all_sorted (cos_sim : pystr -> list pystr -> nat -> Q) (query : pystr)
  (all_secs : list Sections.Candidate) :
  StronglySorted (fun a b => (Sections.score b <= Sections.score a)%Q)
    (Sections.rank_all cos_sim query all_secs).
Proof.
  unfold Sections.rank_all. cbv zeta.
  match goal with
  | |- StronglySorted _ (sort_by desc Sections.score ?l) =>
      pose proof (sort_by_sorted desc Sections.score desc_total desc_trans l) as H
  end.
  eapply StronglySorted_ind with (P := fun l =>
    StronglySorted (fun a b => (Sections.score b <= Sections.score a)%Q) l);
    [constructor | | exact H].
  intros a l Hs IH Hall. constructor; [exact IH|].
  rewrite Forall_forall in *. intros x Hx. specialize (Hall x Hx).
  now apply Qle_bool_iff.
Qed.

Lemma rank_all_filenames (cos_sim : pystr -> list pystr -> nat -> Q) (query : pystr)
  (all_secs : list Sections.Candidate) (c : Sections.Candidate) :
  In c all_secs ->
  In (Sections.filename c)
     (map Sections.s_filename (Sections.rank_all cos_sim query all_secs)).
Proof.
  intros Hc. unfold Sections.rank_all. cbv zeta.
  rewrite <- (enumerate_snd all_secs 0) in Hc.
  apply in_map_iff in Hc as ([i c'] & E & Hic). simpl in E. subst c'.
  apply in_map_iff.
  eexists. split; [|apply sort_by_In, in_map_iff; eexists; split; [reflexivity | exact Hic]].
  reflexivity.
Qed.

Lemma NoDup_firstn (A : Type) (n : nat) (l : list A) : NoDup l -> NoDup (firstn n l).
Proof.
  intros H. rewrite <- (firstn_skipn n l) in H. eapply NoDup_app_remove_r; eauto.
Qed.

Lemma StronglySorted_unmap (A B : Type) (R : B -> B -> Prop) (f : A -> B)
  (l : list A) :
  StronglySorted R (map f l) -> StronglySorted (fun a b => R (f a) (f b)) l.
Proof.
  induction l as [|x l IH]; simpl; intros H; [constructor|].
  inversion H as [|? ? Hs Hall]; subst. constructor; [now apply IH|].
  rewrite Forall_forall in *. intros y Hy. apply Hall. now apply in_map.
Qed.

(** C4. When at least 5 distinct documents contribute a candidate section,
    the final selection has exactly 5 sections, from 5 distinct documents;
    it is what the walk over the score-sorted list accepts, one section per
    document (the best scored of its document), and the importance ranks are
    1 to 5 in that order, scores descending. *)
Theorem five_distinct_documents (U : UnicodeData)
  (cos_sim : pystr -> list pystr -> nat -> Q) (query : pystr)
  (all_secs : list Sections.Candidate) (fns : list pystr) :
  NoDup fns -> 5 <= length fns ->
  (forall fn, In fn fns -> exists c, In c all_secs /\ Sections.filename c = fn) ->
  let scored := Sections.rank_all cos_sim query all_secs in
  let final := Sections.select_final U scored in
  length final = 5
  /\ NoDup (map (fun r => Sections.s_filename (Sections.r_sec r)) final)
  /\ map Sections.importance_rank final = [1; 2; 3; 4; 5]
  /\ StronglySorted
       (fun a b => (Sections.score (Sections.r_sec b)
                    <= Sections.score (Sections.r_sec a))%Q) final
  /\ map Sections.r_sec final
     = map (Sections.with_clean_title U)
         (firstn 5 (Spec.first_by Sections.s_filename scored))
  /\ (forall r s, In r final -> In s scored ->
        Sections.s_filename s = Sections.s_filename (Sections.r_sec r) ->
        (Sections.score s <= Sections.score (Sections.r_sec r))%Q).
Proof.
  intros Hnd Hfive Hdocs scored final.
  pose proof (rank_all_sorted cos_sim query all_secs) as Hsorted.
  fold scored in Hsorted.
  set (FB := Spec.first_by Sections.s_filename scored).
  assert (HFB : 5 <= length FB).
  { etransitivity; [exact Hfive|]. apply first_by_covers; [exact Hnd|].
    intros fn Hfn. destruct (Hdocs fn Hfn) as (c & Hc & <-).
    now apply rank_all_filenames. }
  assert (Hsec : map Sections.r_sec final
                 = map (Sections.with_clean_title U) (firstn 5 FB)).
  { unfold final, Sections.select_final.
    now rewrite assign_ranks_sec, select_loop_first. }
  assert (Hlen : length final = 5).
  { rewrite <- (length_map Sections.r_sec), Hsec, length_map, length_firstn. lia. }
  assert (Hfn : map Sections.s_filename (map (Sections.with_clean_title U) (firstn 5 FB))
                = firstn 5 (map Sections.s_filename FB)).
  { rewrite map_map. cbn [Sections.with_clean_title Sections.s_filename].
    symmetry. apply firstn_map. }
  split; [exact Hlen|].
  split.
  { rewrite <- (map_map Sections.r_sec Sections.s_filename), Hsec, Hfn.
    apply NoDup_firstn, first_by_NoDup. }
  split.
  { unfold final, Sections.select_final. rewrite assign_ranks_rank.
    fold (Sections.select_final U scored). fold final.
    replace (length (Sections.select_loop U scored [] [])) with 5; [reflexivity|].
    rewrite <- Hlen. unfold final, Sections.select_final, Sections.assign_ranks.
    now rewrite length_map, enumerate_length. }
  split.
  { apply StronglySorted_unmap with (f := Sections.r_sec)
      (R := fun a b => (Sections.score b <= Sections.score a)%Q).
    rewrite Hsec. apply StronglySorted_map.
    cbn [Sections.with_clean_title Sections.score].
    apply StronglySorted_firstn, first_by_sorted, Hsorted. }
  split; [exact Hsec|].
  intros r s Hr Hs Hsame.
  assert (Hin : In (Sections.r_sec r) (map Sections.r_sec final)) by now apply in_map.
  rewrite Hsec in Hin. apply in_map_iff in Hin as (x & Ex & Hx).
  rewrite <- Ex in *. cbn [Sections.with_clean_title Sections.s_filename Sections.score] in *.
  assert (HxFB : In x FB).
  { rewrite <- (firstn_skipn 5 FB). apply in_or_app. now left. }
  destruct (first_by_earliest _ _ _ HxFB) as (l1 & l2 & El & Hfresh).
  rewrite El in Hs. apply in_app_or in Hs as [Hs | [Hs | Hs]].
  - exfalso. apply Hfresh. rewrite <- Hsame. now apply in_map.
  - subst s. apply Qle_refl.
  - rewrite El in Hsorted. apply (@StronglySorted_after _ _ l1 l2 x s Hsorted Hs).
Qed.

(** The theorem at seven candidates from five documents, with the selection
    spelled out: the title of the first is cleaned, the ranks follow the scores. *)
Lemma five_distinct_documents_witness :
  length (Sections.select_final Samples.basic_db
            (Sections.rank_all Samples.seven_sims (lit "Planner. Plan a trip")
               Samples.seven_candidates)) = 5
  /\ map (fun r => (Sections.s_filename (Sections.r_sec r),
                    Sections.s_title (Sections.r_sec r),
                    Sections.importance_rank r))
       (Sections.select_final Samples.basic_db
          (Sections.rank_all Samples.seven_sims (lit "Planner. Plan a trip")
             Samples.seven_candidates))
     = [ (lit "a.pdf", lit "City Guide", 1); (lit "b.pdf", lit "Wine Regions", 2);
         (lit "d.pdf", lit "Night Life", 3); (lit "c.pdf", lit "Packing Tips", 4);
         (lit "e.pdf", lit "History", 5) ].
Proof.
  split; [|vm_compute; reflexivity].
  apply (@five_distinct_documents Samples.basic_db Samples.seven_sims
           (lit "Planner. Plan a trip") Samples.seven_candidates
           [lit "a.pdf"; lit "b.pdf"; lit "c.pdf"; lit "d.pdf"; lit "e.pdf"]).
  - repeat constructor; vm_compute; intuition discriminate.
  - vm_compute. lia.
  - intros fn Hfn. vm_compute in Hfn.
    destruct Hfn as [<- | [<- | [<- | [<- | [<- | []]]]]].
    + exists (Samples.candidate "a.pdf" "Coastal Walks" 1). split; [|reflexivity].
      vm_compute. tauto.
    + exists (Samples.candidate "b.pdf" "Local Cuisine" 1). split; [|reflexivity].
      vm_compute. tauto.
    + exists (Samples.candidate "c.pdf" "Packing Tips" 3). split; [|reflexivity].
      vm_compute. tauto.
    + exists (Samples.candidate "d.pdf" "Night Life" 1). split; [|reflexivity].
      vm_compute. tauto.
    + exists (Samples.candidate "e.pdf" "History" 2). split; [|reflexivity].
      vm_compute. tauto.
Defined.

(* ================================================================== *)
(** * Part XIII. Sentence refinement                                   *)
(* ================================================================== *)

Lemma sorted_le_NoDup_lt (l : list nat) :
  StronglySorted le l -> NoDup l -> StronglySorted lt l.
Proof.
  induction 1 as [|x l Hs IH Hall]; intros Hnd; constructor;
    inversion Hnd as [|? ? Hx Hl]; subst.
  - now apply IH.
  - rewrite Forall_forall in *. intros y Hy. specialize (Hall y Hy).
    assert (x <> y) by (intros ->; contradiction). lia.
Qed.

Lemma is_topk_perm (t : list Q) (k : nat) (a b : list nat) :
  Permutation a b -> Spec.is_topk t k a -> Spec.is_topk t k b.
Proof.
  intros P (Hlen & Hnd & Hlt & Htop). repeat split.
  - now rewrite <- (Permutation_length P).
  - eapply Permutation_NoDup; eauto.
  - intros i Hi. apply Hlt. eapply Permutation_in; [symmetry|]; eauto.
  - intros i j Hi Hj Hnj. apply Htop; trivial.
    + eapply Permutation_in; [symmetry|]; eauto.
    + intros X. apply Hnj. eapply Permutation_in; eauto.
Qed.

Lemma sort_nat_sorted (l : list nat) :
  StronglySorted le (sort_by Nat.leb (fun i => i) l).
Proof.
  pose proof (sort_by_sorted Nat.leb (fun i : nat => i) leb_total leb_trans l) as H.
  induction H as [|x r Hs IH Hall]; constructor; [exact IH|].
  rewrite Forall_forall in *. intros y Hy. now apply Nat.leb_le, Hall.
Qed.

(** C5. When the text of a selected section splits into at least one
    sentence, its refined text is the join, with single spaces, of the
    sentences at a top-k choice of positions for k = min(3, number of
    sentences), taken in ascending position and not in similarity order. *)
Theorem refined_text_in_reading_order (U : UnicodeData)
  (page_text : pystr -> nat -> pystr)
  (cos_sim : pystr -> list pystr -> nat -> Q) (topk : list Q -> nat -> list nat)
  (query : pystr) (r : Sections.Ranked) :
  let sents := Sections.sentences U (Sections.section_text U page_text (Sections.r_sec r)) in
  let sims := Sections.sims_of cos_sim query sents in
  let k := Nat.min 3 (length sents) in
  sents <> [] ->
  Spec.is_topk sims k (topk sims k) ->
  exists idxs,
    Permutation idxs (topk sims k)
    /\ Spec.is_topk sims k idxs
    /\ StronglySorted lt idxs
    /\ Sections.refined_text (Sections.refine U page_text cos_sim topk query r)
       = join [SPACE] (map (fun i => nth i sents []) idxs).
Proof.
  intros sents sims k Hne Htop.
  exists (sort_by Nat.leb (fun i => i) (topk sims k)).
  assert (P : Permutation (sort_by Nat.leb (fun i => i) (topk sims k)) (topk sims k))
    by apply sort_by_perm.
  assert (T : Spec.is_topk sims k (sort_by Nat.leb (fun i => i) (topk sims k))).
  { eapply is_topk_perm; [symmetry; exact P | exact Htop]. }
  split; [exact P|]. split; [exact T|]. split.
  - apply sorted_le_NoDup_lt; [apply sort_nat_sorted | apply T].
  - unfold Sections.refine. cbv zeta. cbn [Sections.refined_text].
    unfold Sections.refine_text. fold sents.
    destruct sents as [|s0 rest] eqn:E; [contradiction|].
    reflexivity.
Qed.

(** The theorem at a section of five sentences. *)
Lemma refined_text_in_reading_order_witness :
  exists idxs,
    Permutation idxs [3; 0; 2]
    /\ Spec.is_topk [8 # 10; 1 # 10; 7 # 10; 9 # 10; 2 # 10]%Q 3 idxs
    /\ StronglySorted lt idxs
    /\ Sections.refined_text
         (Sections.refine Samples.basic_db Samples.no_page_text Samples.five_sims
            Samples.topk_sorted (lit "Analyst. Summarise") Samples.selected_section)
       = join [SPACE]
           (map (fun i => nth i [lit "Alpha one."; lit "Beta two!"; lit "Gamma three?";
                                 lit "Delta four."; lit "Epsilon five."] [])
                idxs).
Proof.
  apply (@refined_text_in_reading_order Samples.basic_db Samples.no_page_text
           Samples.five_sims Samples.topk_sorted (lit "Analyst. Summarise")
           Samples.selected_section).
  - vm_compute. discriminate.
  - change (Spec.is_topk [8 # 10; 1 # 10; 7 # 10; 9 # 10; 2 # 10]%Q 3 [3; 0; 2]).
    split; [reflexivity|]. split; [|split].
    + repeat constructor; simpl; intuition discriminate.
    + intros i [<- | [<- | [<- | []]]]; simpl; lia.
    + intros i j Hi Hj Hnj. simpl in Hj.
      destruct Hi as [<- | [<- | [<- | []]]];
        (do 5 (destruct j as [|j];
               [first [ exfalso; apply Hnj; simpl; intuition congruence
                      | unfold Qle; simpl; lia ] |]);
         lia).
Defined.

(** The refined text of the sample, spelled out: positions 0, 2 and 3, where
    the similarity order of the chosen positions is 3, 0, 2. *)
Example refined_sample :
  Samples.topk_sorted [8 # 10; 1 # 10; 7 # 10; 9 # 10; 2 # 10]%Q 3 = [3; 0; 2]
  /\ Sections.refined_text
       (Sections.refine Samples.basic_db Samples.no_page_text Samples.five_sims
          Samples.topk_sorted (lit "Analyst. Summarise") Samples.selected_section)
     = lit "Alpha one. Gamma three? Delta four.".
Proof. split; vm_compute; reflexivity. Qed.

(* ================================================================== *)
(** * Part XIV. The outcome of a run                                   *)
(* ================================================================== *)

Section MainFacts.
Variable U : UnicodeData.
Variable open_pdf : pystr -> option Document.
Variable page_text : pystr -> nat -> pystr.
Variable cos_sim : pystr -> list pystr -> nat -> Q.
Variable topk : list Q -> nat -> list nat.
Variable now : pystr.
Variable rt : Sections.Runtime.

Lemma gather_all_open (order : list pystr) (acc : list Sections.Candidate) :
  Forall (fun fn => open_pdf fn <> None) order ->
  Sections.gather U open_pdf order acc
  = Some (acc ++ Spec.candidate_sections U open_pdf order).
Proof.
  intros H. revert acc. induction H as [|fn rest Hfn Hrest IH]; intros acc; simpl.
  - now rewrite app_nil_r.
  - destruct (open_pdf fn) as [doc|]; [|contradiction].
    now rewrite IH, app_assoc.
Qed.

Lemma gather_unreadable (order : list pystr) (acc : list Sections.Candidate)
  (fn : pystr) :
  In fn order -> open_pdf fn = None ->
  Sections.gather U open_pdf order acc = None.
Proof.
  revert acc. induction order as [|x rest IH]; intros acc Hin Hfn; simpl.
  - contradiction.
  - destruct Hin as [-> | Hin]; [now rewrite Hfn|].
    destruct (open_pdf x); [now apply IH | reflexivity].
Qed.


(** X20. A document of the run that cannot be opened ends the run with the
    exception, whatever the other documents hold: nothing is written. *)
Lemma unreadable_document_raises (ch : Sections.Challenge) (order : list pystr)
  (fn : pystr) :
  In fn order -> open_pdf fn = None ->
  Sections.main U open_pdf page_text cos_sim topk now rt ch order = Sections.Raised.
Proof.
  intros Hin Hfn. unfold Sections.main. cbv zeta.
  rewrite (gather_unreadable _ _ Hin Hfn).
  destruct (negb (Sections.input_reads rt)); [reflexivity|].
  destruct (negb (Sections.model_loads rt)); reflexivity.
Qed.


End MainFacts.


(** The three ways a run over readable documents ends: the diagnostic when
    nothing is gathered, the written file when sections are gathered, and
    the exception, with nothing written, when the file cannot be written. *)
Example run_outcomes :
  Spec.candidate_sections Samples.basic_db Samples.blank_files [lit "blank.pdf"] = []
  /\ Sections.main Samples.basic_db Samples.blank_files Samples.no_page_text
       Samples.five_sims Samples.topk_sorted (lit "2025-07-28T10:00:00")
       Samples.all_fine Samples.challenge [lit "blank.pdf"] = Sections.NoHeadings
  /\ Sections.writes_output Samples.report_run = true
  /\ length (Spec.candidate_sections Samples.basic_db Samples.one_report
               [lit "report.pdf"]) = 3
  /\ Sections.main Samples.basic_db Samples.one_report Samples.no_page_text
       Samples.five_sims Samples.topk_sorted (lit "2025-07-28T10:00:00")
       Samples.no_write Samples.challenge [lit "report.pdf"] = Sections.Raised.
Proof. repeat split; vm_compute; reflexivity. Qed.


(* ================================================================== *)
(** * Part XV. More on the outline extractor                           *)
(* ================================================================== *)

(** ** Bucketing of a page *)

Lemma place_perm (s : Outline.Span) (bs bs' : list (list Outline.Span)) :
  Outline.place s bs = Some bs' ->
  Permutation (concat bs') (s :: concat bs)
  /\ map (@hd_error Outline.Span) bs' = map (@hd_error Outline.Span) bs
  /\ (Forall (fun b => b <> []) bs -> Forall (fun b => b <> []) bs').
Proof.
  revert bs'. induction bs as [|b rest IH]; intros bs' H; simpl in H.
  - discriminate.
  - assert (Hskip : option_map (cons b) (Outline.place s rest) = Some bs' ->
        Permutation (concat bs') (s :: concat (b :: rest))
        /\ map (@hd_error Outline.Span) bs' = map (@hd_error Outline.Span) (b :: rest)
        /\ (Forall (fun b => b <> []) (b :: rest) -> Forall (fun b => b <> []) bs')).
    { destruct (Outline.place s rest) as [r'|]; [|discriminate].
      intros E. inversion E; subst. destruct (IH r' eq_refl) as (P & Hh & Hn).
      split; [|split].
      - simpl. rewrite P. apply Permutation_sym, Permutation_middle.
      - simpl. now rewrite Hh.
      - intros F. inversion F; subst. constructor; auto. }
    destruct b as [|s0 b']; [now apply Hskip|].
    destruct (Outline.same_row s0 s); [|now apply Hskip].
    inversion H; subst. split; [|split].
    + simpl. rewrite <- app_assoc. simpl.
      apply Permutation_sym.
      change (s :: s0 :: b' ++ concat rest) with (s :: (s0 :: b') ++ concat rest).
      rewrite (Permutation_middle (s0 :: b') (concat rest) s). reflexivity.
    + reflexivity.
    + intros F. inversion F; subst. constructor; [discriminate | assumption].
Qed.

(** X1. Bucketing a page neither loses nor repeats a span, and no bucket is
    empty. *)
Theorem bucket_spans_partition (spans : list Outline.Span) :
  Permutation (concat (Outline.bucket_spans spans)) spans
  /\ Forall (fun b => b <> []) (Outline.bucket_spans spans).
Proof.
  unfold Outline.bucket_spans.
  assert (G : forall bs,
    Forall (fun b => b <> []) bs ->
    Permutation (concat (fold_left Outline.bucket_step spans bs)) (concat bs ++ spans)
    /\ Forall (fun b => b <> []) (fold_left Outline.bucket_step spans bs)).
  { induction spans as [|s rest IH]; intros bs Hne; simpl.
    - rewrite app_nil_r. split; [reflexivity | exact Hne].
    - unfold Outline.bucket_step at 2 4.
      destruct (Outline.place s bs) as [bs'|] eqn:E.
      + destruct (@place_perm s bs bs' E) as (P & _ & Hn).
        destruct (IH bs' (Hn Hne)) as [P' Hn']. split; [|exact Hn'].
        rewrite P', P. simpl. apply Permutation_middle.
      + assert (Hne' : Forall (fun b => b <> []) (bs ++ [[s]])).
        { apply Forall_app. split; [exact Hne|]. repeat constructor. discriminate. }
        destruct (IH _ Hne') as [P' Hn']. split; [|exact Hn'].
        rewrite P', concat_app. simpl. now rewrite <- app_assoc. }
  destruct (G [] (Forall_nil _)) as [P Hn]. split; [exact P | exact Hn].
Qed.

Lemma Qltb_lt (a b : Q) : Qltb a b = true <-> (a < b)%Q.
Proof.
  unfold Qltb. rewrite negb_true_iff. split.
  - intros H. apply Qnot_le_lt. intros X. apply Qle_bool_iff in X. congruence.
  - intros H. destruct (Qle_bool b a) eqn:E; [|reflexivity].
    apply Qle_bool_iff in E. exfalso. apply (Qlt_not_le _ _ H E).
Qed.

Lemma Qltb_ge (a b : Q) : Qltb a b = false <-> (b <= a)%Q.
Proof.
  unfold Qltb. rewrite negb_false_iff. apply Qle_bool_iff.
Qed.

Lemma place_rows (s : Outline.Span) (bs bs' : list (list Outline.Span)) :
  Outline.place s bs = Some bs' ->
  Forall (fun b => forall s0 r, b = s0 :: r ->
                     Forall (fun x => Outline.same_row s0 x = true) r) bs ->
  Forall (fun b => forall s0 r, b = s0 :: r ->
                     Forall (fun x => Outline.same_row s0 x = true) r) bs'.
Proof.
  revert bs'. induction bs as [|b rest IH]; intros bs' H F; simpl in H.
  - discriminate.
  - inversion F as [|? ? Hb Hrest]; subst.
    assert (Hskip : option_map (cons b) (Outline.place s rest) = Some bs' ->
      Forall (fun b => forall s0 r, b = s0 :: r ->
                         Forall (fun x => Outline.same_row s0 x = true) r) bs').
    { destruct (Outline.place s rest) as [r'|]; [|discriminate].
      intros E. inversion E; subst. constructor; [exact Hb | now apply IH]. }
    destruct b as [|s0 b']; [now apply Hskip|].
    destruct (Outline.same_row s0 s) eqn:Hrow; [|now apply Hskip].
    inversion H; subst. constructor; [|exact Hrest].
    intros s1 r E. simpl in E. inversion E; subst.
    apply Forall_app. split; [now apply (Hb s1 b') | repeat constructor; exact Hrow].
Qed.

Lemma place_none (s : Outline.Span) (bs : list (list Outline.Span)) :
  Outline.place s bs = None ->
  Forall (fun h => forall s0, h = Some s0 -> Outline.same_row s0 s = false)
         (map (@hd_error Outline.Span) bs).
Proof.
  induction bs as [|b rest IH]; simpl; intros H; [constructor|].
  destruct b as [|s0 b'].
  - destruct (Outline.place s rest); [discriminate|].
    constructor; [discriminate | now apply IH].
  - destruct (Outline.same_row s0 s) eqn:Hrow; [discriminate|].
    destruct (Outline.place s rest); [discriminate|].
    constructor; [|now apply IH].
    intros s1 E. simpl in E. now inversion E; subst.
Qed.

Lemma StronglySorted_snoc (A : Type) (R : A -> A -> Prop) (l : list A) (x : A) :
  StronglySorted R l -> Forall (fun y => R y x) l -> StronglySorted R (l ++ [x]).
Proof.
  induction 1 as [|y l Hs IH Hall]; intros F; simpl.
  - repeat constructor.
  - inversion F; subst. constructor; [now apply IH|].
    apply Forall_app. split; [exact Hall | now repeat constructor].
Qed.

Lemma bucket_spans_rows (spans : list Outline.Span) :
  Forall (fun b => forall s0 r, b = s0 :: r ->
                     Forall (fun x => Outline.same_row s0 x = true) r)
         (Outline.bucket_spans spans)
  /\ StronglySorted
       (fun h1 h2 => forall a b, h1 = Some a -> h2 = Some b ->
                                 Outline.same_row a b = false)
       (map (@hd_error Outline.Span) (Outline.bucket_spans spans)).
Proof.
  unfold Outline.bucket_spans.
  assert (G : forall bs,
    Forall (fun b => forall s0 r, b = s0 :: r ->
                       Forall (fun x => Outline.same_row s0 x = true) r) bs ->
    StronglySorted
      (fun h1 h2 => forall a b, h1 = Some a -> h2 = Some b ->
                                Outline.same_row a b = false)
      (map (@hd_error Outline.Span) bs) ->
    Forall (fun b => forall s0 r, b = s0 :: r ->
                       Forall (fun x => Outline.same_row s0 x = true) r)
           (fold_left Outline.bucket_step spans bs)
    /\ StronglySorted
         (fun h1 h2 => forall a b, h1 = Some a -> h2 = Some b ->
                                   Outline.same_row a b = false)
         (map (@hd_error Outline.Span) (fold_left Outline.bucket_step spans bs))).
  { induction spans as [|s rest IH]; intros bs F S; simpl; [now split|].
    apply IH; unfold Outline.bucket_step;
      destruct (Outline.place s bs) as [bs'|] eqn:E.
    - now apply (@place_rows s bs bs' E).
    - apply Forall_app. split; [exact F|]. repeat constructor.
      intros s0 r X. inversion X; subst. constructor.
    - destruct (@place_perm s bs bs' E) as (_ & Hh & _). now rewrite Hh.
    - rewrite map_app. simpl. apply StronglySorted_snoc; [exact S|].
      pose proof (@place_none s bs E) as N.
      rewrite Forall_forall in *. intros h Hh a b -> X. inversion X; subst.
      now apply (N (Some a) Hh). }
  apply G; constructor.
Qed.

(** X2. Within a bucket of a page every span lies less than 2 points, in
    [y0], from the first span of the bucket, and the first spans of two
    different buckets lie at least 2 points apart. *)
Theorem bucket_spans_rows_apart (spans : list Outline.Span) :
  (forall s0 r s, In (s0 :: r) (Outline.bucket_spans spans) -> In s r ->
     (Qabs (Outline.y0 s0 - Outline.y0 s) < 2)%Q)
  /\ (forall pre mid post h1 r1 h2 r2,
        Outline.bucket_spans spans = pre ++ (h1 :: r1) :: mid ++ (h2 :: r2) :: post ->
        (2 <= Qabs (Outline.y0 h1 - Outline.y0 h2))%Q).
Proof.
  destruct (bucket_spans_rows spans) as [F S]. split.
  - intros s0 r s Hb Hs. rewrite Forall_forall in F.
    specialize (F _ Hb s0 r eq_refl). rewrite Forall_forall in F.
    apply Qltb_lt. exact (F s Hs).
  - intros pre mid post h1 r1 h2 r2 E. rewrite E in S.
    rewrite map_app in S. simpl in S. rewrite map_app in S. simpl in S.
    apply Qltb_ge.
    refine (@StronglySorted_after _ _ _ _ (Some h1) (Some h2) S _ h1 h2 eq_refl eq_refl).
    apply in_or_app. right. now left.
Qed.

(** ** Heading levels *)

Lemma top3_sorted (xs : list Q) :
  StronglySorted (fun a b => (b < a)%Q) (top3 xs).
Proof.
  unfold top3. apply StronglySorted_firstn, sort_desc_strict, distinct_apart.
Qed.

Lemma get_level_mem (tops : list Q) (lvls : list Outline.HeadingLevel) (s : Q)
  (lvl : Outline.HeadingLevel) :
  Outline.get_level (combine tops lvls) s = Some lvl ->
  exists k, In k tops /\ (k == s)%Q /\ In lvl lvls.
Proof.
  revert lvls. induction tops as [|t tops IH]; intros [|l lvls] H; simpl in H;
    try discriminate.
  destruct (Qeq_bool t s) eqn:E.
  - inversion H; subst. exists t. repeat split; [now left | | now left].
    now apply Qeq_bool_iff.
  - destruct (IH _ H) as (k & Hk & Ek & Hl). exists k. repeat split; auto.
    now right. now right.
Qed.

Lemma get_level_order (tops : list Q) (lvls : list Outline.HeadingLevel)
  (a b : Q) (la lb : Outline.HeadingLevel) :
  StronglySorted (fun x y => (y < x)%Q) tops ->
  StronglySorted (fun x y => Spec.level_rank x < Spec.level_rank y) lvls ->
  Outline.get_level (combine tops lvls) a = Some la ->
  Outline.get_level (combine tops lvls) b = Some lb ->
  ((b < a)%Q -> Spec.level_rank la < Spec.level_rank lb)
  /\ ((a == b)%Q -> la = lb).
Proof.
  intros St. revert lvls. induction St as [|t tops St IH Ht]; intros lvls Sl Ha Hb.
  - discriminate.
  - destruct lvls as [|l lvls]; [discriminate|].
    inversion Sl as [|? ? Sl' Hl]; subst. simpl in Ha, Hb.
    rewrite Forall_forall in Ht, Hl.
    destruct (Qeq_bool t a) eqn:Ea; destruct (Qeq_bool t b) eqn:Eb.
    + apply Qeq_bool_iff in Ea, Eb. inversion Ha; inversion Hb; subst.
      split; [intros X; lra | reflexivity].
    + apply Qeq_bool_iff in Ea. apply Qeq_bool_neq in Eb. inversion Ha; subst.
      destruct (get_level_mem _ _ _ Hb) as (k & Hk & Ek & Hin).
      split; [intros _; now apply Hl | intros X; exfalso; apply Eb; lra].
    + apply Qeq_bool_iff in Eb. apply Qeq_bool_neq in Ea. inversion Hb; subst.
      destruct (get_level_mem _ _ _ Ha) as (k & Hk & Ek & Hin).
      specialize (Ht k Hk). cbv beta in Ht.
      split; [intros X; exfalso; lra | intros X; exfalso; apply Ea; lra].
    + eapply IH; eauto.
Qed.

(** X3. A line receives a heading level exactly when its size is among the
    three largest distinct sizes of the lines of the document. *)
Theorem level_iff_top3 (lines : list Outline.Line) (s : Q) :
  (exists lvl,
     Outline.get_level (Outline.level_map (Outline.top_sizes lines)) s = Some lvl)
  <-> Spec.among_top3 (map Outline.l_size lines) s.
Proof.
  rewrite <- top3_spec. unfold Outline.level_map, Outline.top_sizes. split.
  - intros (lvl & H). destruct (get_level_mem _ _ _ H) as (k & Hk & Ek & _).
    apply Qmem_spec. eauto.
  - intros H. apply get_level_found; [|exact H].
    unfold top3. rewrite length_firstn.
    change (length [Outline.H1; Outline.H2; Outline.H3]) with 3.
    apply Nat.le_min_l.
Qed.

(** X4. Levels follow sizes: of two sizes that both carry a level, the
    strictly larger one carries the higher level (H1 above H2 above H3), and
    equal sizes carry the same level. *)
Theorem level_follows_size (lines : list Outline.Line) (a b : Q)
  (la lb : Outline.HeadingLevel) :
  Outline.get_level (Outline.level_map (Outline.top_sizes lines)) a = Some la ->
  Outline.get_level (Outline.level_map (Outline.top_sizes lines)) b = Some lb ->
  ((b < a)%Q -> Spec.level_rank la < Spec.level_rank lb)
  /\ ((a == b)%Q -> la = lb).
Proof.
  unfold Outline.level_map, Outline.top_sizes.
  apply get_level_order; [apply top3_sorted|].
  repeat constructor; simpl; lia.
Qed.

(** The theorem at the lines of the sample report: size 20 is H1, size 10 H2. *)
Lemma level_follows_size_witness :
  ((10 < 20)%Q -> Spec.level_rank Outline.H1 < Spec.level_rank Outline.H2)
  /\ ((20 == 10)%Q -> Outline.H1 = Outline.H2).
Proof.
  apply (@level_follows_size
           (Outline.collect_lines Samples.basic_db Samples.report_doc)
           20%Q 10%Q Outline.H1 Outline.H2);
    vm_compute; reflexivity.
Defined.

(** ** Pages, order and titles of the outline *)

Lemma StronglySorted_app (A : Type) (R : A -> A -> Prop) (l1 l2 : list A) :
  StronglySorted R l1 -> StronglySorted R l2 ->
  (forall x y, In x l1 -> In y l2 -> R x y) ->
  StronglySorted R (l1 ++ l2).
Proof.
  induction 1 as [|x l Hs IH Hall]; intros S2 Hx; simpl; [exact S2|].
  constructor.
  - apply IH; [exact S2|]. intros a b Ha Hb. apply Hx; [now right | exact Hb].
  - apply Forall_app. split; [exact Hall|].
    rewrite Forall_forall. intros y Hy. apply Hx; [now left | exact Hy].
Qed.

Lemma page_lines (U : UnicodeData) (p : nat) (page : Page) (l : Outline.Line) :
  In l (flat_map (fun '(page_num, b) => Outline.build_line U page_num b)
          (map (pair p) (Outline.bucket_spans (Outline.collect_spans U page)))) ->
  Outline.l_page l = p /\ Outline.has_letter U (Outline.l_text l) = true.
Proof.
  intros H. apply in_flat_map in H as ([q b] & Hq & Hl).
  apply in_map_iff in Hq as (b' & E & _). inversion E; subst q b'.
  unfold Outline.build_line in Hl.
  destruct (Outline.has_letter U (Outline.line_text U (sort_by asc Outline.x0 b))) eqn:L;
    [|contradiction].
  destruct Hl as [<- | []]. simpl. split; [reflexivity | exact L].
Qed.

Lemma same_page_sorted (n : nat) (l : list Outline.Line) :
  (forall x, In x l -> Outline.l_page x = n) ->
  StronglySorted (fun a b => Outline.l_page a <= Outline.l_page b) l.
Proof.
  induction l as [|x l IH]; intros H; constructor.
  - apply IH. intros y Hy. apply H. now right.
  - rewrite Forall_forall. intros y Hy.
    rewrite (H x (or_introl eq_refl)), (H y (or_intror Hy)). lia.
Qed.

Lemma lines_from (U : UnicodeData) (doc : Document) (n : nat) :
  let lines :=
    flat_map (fun '(page_num, b) => Outline.build_line U page_num b)
      (flat_map (fun '(page_num, page) =>
                   map (pair page_num)
                       (Outline.bucket_spans (Outline.collect_spans U page)))
                (enumerate n doc)) in
  StronglySorted (fun a b => Outline.l_page a <= Outline.l_page b) lines
  /\ Forall (fun l => n <= Outline.l_page l < n + length doc
                      /\ Outline.has_letter U (Outline.l_text l) = true) lines.
Proof.
  cbv zeta. revert n. induction doc as [|page rest IH]; intros n.
  - simpl. split; constructor.
  - cbn [enumerate flat_map]. rewrite flat_map_app.
    destruct (IH (S n)) as [S2 F2]. rewrite Forall_forall in F2.
    split.
    + apply StronglySorted_app; [|exact S2|].
      * apply same_page_sorted with (n := n).
        intros x Hx. now apply (page_lines U n page x).
      * intros x y Hx Hy. apply (page_lines U n page x) in Hx as [-> _].
        destruct (F2 y Hy) as [? _]. lia.
    + apply Forall_app. split.
      * rewrite Forall_forall. intros x Hx.
        apply (page_lines U n page x) in Hx as [-> L]. simpl. split; [lia | exact L].
      * rewrite Forall_forall. intros y Hy. destruct (F2 y Hy) as [? L].
        simpl. split; [lia | exact L].
Qed.

Lemma heading_entries_sorted (m : list (Q * Outline.HeadingLevel))
  (lines : list Outline.Line) :
  StronglySorted (fun a b => Outline.l_page a <= Outline.l_page b) lines ->
  StronglySorted (fun a b => Outline.e_page a <= Outline.e_page b)
    (Spec.heading_entries m lines).
Proof.
  induction 1 as [|l rest Hs IH Hall]; simpl; [constructor|].
  destruct (Outline.get_level m (Outline.l_size l)) as [lvl|]; simpl; [|exact IH].
  constructor; [exact IH|].
  rewrite Forall_forall in *. intros e He.
  apply in_flat_map in He as (l' & Hl' & He).
  destruct (Outline.get_level m (Outline.l_size l')); [|contradiction].
  destruct He as [<- | []]. simpl. now apply Hall.
Qed.

(** X5. The entries of an outline are in page order, the page of each lies
    between 1 and the number of pages of the document, and the text of each
    holds a letter. *)
Theorem outline_entries_wellformed (U : UnicodeData) (doc : Document) (stem : pystr) :
  StronglySorted (fun a b => Outline.e_page a <= Outline.e_page b)
    (Outline.outline (Outline.extract_outline U doc stem))
  /\ (forall e, In e (Outline.outline (Outline.extract_outline U doc stem)) ->
        1 <= Outline.e_page e <= length doc
        /\ Outline.has_letter U (Outline.e_text e) = true).
Proof.
  unfold Outline.extract_outline. cbn [Outline.outline].
  rewrite build_outline_spec.
  destruct (lines_from U doc 1) as [S F].
  fold (Outline.page_buckets U doc) in S, F. fold (Outline.collect_lines U doc) in S, F.
  split.
  - apply first_by_sorted, heading_entries_sorted, S.
  - intros e He. apply first_by_incl in He.
    apply in_flat_map in He as (l & Hl & He).
    destruct (Outline.get_level _ (Outline.l_size l)); [|contradiction].
    destruct He as [<- | []]. simpl.
    rewrite Forall_forall in F. destruct (F l Hl) as [? L]. split; [lia | exact L].
Qed.

(** X6. When page 1 yields no line, and so for a document without pages,
    the title is the stem of the file name. *)
Theorem title_falls_back_to_stem (U : UnicodeData) (doc : Document) (stem : pystr) :
  (forall l, In l (Outline.collect_lines U doc) -> Outline.l_page l <> 1) ->
  Outline.title (Outline.extract_outline U doc stem) = stem.
Proof.
  intros H. unfold Outline.extract_outline, Outline.choose_title, Outline.top_line.
  cbn [Outline.title].
  assert (E : Outline.first_page (Outline.collect_lines U doc) = []).
  { unfold Outline.first_page.
    induction (Outline.collect_lines U doc) as [|l ls IH]; [reflexivity|].
    simpl. destruct (Outline.l_page l =? 1) eqn:P.
    - apply Nat.eqb_eq in P. exfalso. apply (H l); [now left | exact P].
    - apply IH. intros x Hx. apply H. now right. }
  now rewrite E.
Qed.

(** The theorem at a document whose first page holds no letter: the title is
    the stem although page 2 has a heading. *)
Lemma title_falls_back_to_stem_witness :
  Outline.title (Outline.extract_outline Samples.basic_db Samples.numbered_doc
                   (lit "numbered")) = lit "numbered".
Proof.
  apply title_falls_back_to_stem.
  intros l Hl. vm_compute in Hl. destruct Hl as [<- | []]. vm_compute. discriminate.
Defined.

Lemma flat_map_nil (A B : Type) (f : A -> list B) (l : list A) :
  (forall x, In x l -> f x = []) -> flat_map f l = [].
Proof.
  induction l as [|x l IH]; intros H; simpl; [reflexivity|].
  rewrite (H x (or_introl eq_refl)). apply IH. intros y Hy. apply H. now right.
Qed.

(** X7. A document none of whose spans holds a letter once stripped yields
    the stem as title and an empty outline, and yields no section. *)
Theorem letterless_document (U : UnicodeData) (doc : Document) (stem : pystr) :
  Forall (Forall (fun sp => Outline.has_letter U (strip U (raw_text sp)) = false)) doc ->
  Outline.extract_outline U doc stem
  = {| Outline.title := stem; Outline.outline := [] |}
  /\ Sections.extract_sections U doc = [].
Proof.
  intros H. rewrite Forall_forall in H. split.
  - assert (E : Outline.page_buckets U doc = []).
    { unfold Outline.page_buckets. apply flat_map_nil. intros [p page] Hp.
      apply enumerate_In in Hp as [_ Hn]. apply nth_error_In in Hn.
      specialize (H page Hn). rewrite Forall_forall in H.
      replace (Outline.collect_spans U page) with (@nil Outline.Span); [reflexivity|].
      symmetry. apply flat_map_nil. intros sp Hsp. unfold Outline.collect_span.
      specialize (H sp Hsp). cbv beta in H.
      destruct (strip U (raw_text sp)); [reflexivity | now rewrite H]. }
    unfold Outline.extract_outline, Outline.collect_lines. now rewrite E.
  - unfold Sections.extract_sections.
    replace (Sections.collect_spans U doc) with (@nil Sections.Span); [reflexivity|].
    symmetry. apply flat_map_nil. intros [p page] Hp.
    apply enumerate_In in Hp as [_ Hn]. apply nth_error_In in Hn.
    specialize (H page Hn). rewrite Forall_forall in H.
    apply flat_map_nil. intros sp Hsp. unfold Sections.collect_span.
    specialize (H sp Hsp). cbv beta in H.
    destruct (strip U (raw_text sp)); [reflexivity|].
    unfold Outline.has_letter in H. unfold Sections.has_letter. now rewrite H.
Qed.

(** The theorem at a document of digits, rules and blanks. *)
Lemma letterless_document_witness :
  Outline.extract_outline Samples.basic_db Samples.letterless_doc (lit "blank")
  = {| Outline.title := lit "blank"; Outline.outline := [] |}
  /\ Sections.extract_sections Samples.basic_db Samples.letterless_doc = [].
Proof.
  apply letterless_document.
  repeat constructor.
Defined.

(* ================================================================== *)
(** * Part XVI. More on the section extractor                          *)
(* ================================================================== *)

(** ** Bucketing of the sorted spans *)

Lemma chained_snoc (g : Q) (b : list Sections.Span) (sp : Sections.Span) :
  Spec.chained g b -> b <> [] ->
  (Qabs (Sections.y0 sp - Sections.y0 (last b sp)) < g)%Q ->
  Spec.chained g (b ++ [sp]).
Proof.
  induction b as [|s1 b IH]; intros C Hne Hnear; [contradiction|].
  destruct b as [|s2 r].
  - simpl in *. split; [exact Hnear | exact I].
  - destruct C as [C1 C2]. change ((s1 :: s2 :: r) ++ [sp]) with (s1 :: (s2 :: r) ++ [sp]).
    change (Spec.chained g (s1 :: s2 :: r ++ [sp])).
    split; [exact C1|]. apply IH; [exact C2 | discriminate | exact Hnear].
Qed.

Lemma separated_grow (g : Q) (bs : list (list Sections.Span))
  (b : list Sections.Span) (sp : Sections.Span) :
  Spec.separated g (bs ++ [b]) -> b <> [] -> Spec.separated g (bs ++ [b ++ [sp]]).
Proof.
  intros S Hne. induction bs as [|b1 bs IH]; [exact I|].
  destruct bs as [|b2 r].
  - simpl in *. destruct S as [S1 _]. split; [|exact I].
    intros s2 H. destruct b as [|x b']; [contradiction|].
    simpl in H. inversion H; subst. now apply S1.
  - destruct S as [S1 S2]. split; [exact S1 | now apply IH].
Qed.

Lemma separated_open (g : Q) (bs : list (list Sections.Span))
  (b : list Sections.Span) (sp : Sections.Span) :
  Spec.separated g (bs ++ [b]) ->
  (g <= Qabs (Sections.y0 sp - Sections.y0 (last b sp)))%Q ->
  Spec.separated g ((bs ++ [b]) ++ [[sp]]).
Proof.
  intros S Hfar. induction bs as [|b1 bs IH].
  - simpl. split; [|exact I]. intros s2 H. now inversion H; subst.
  - destruct bs as [|b2 r].
    + simpl in *. destruct S as [S1 _]. split; [exact S1|].
      split; [|exact I]. intros s2 H. now inversion H; subst.
    + destruct S as [S1 S2]. split; [exact S1 | now apply IH].
Qed.

Lemma bucket_loop_spec (rest : list Sections.Span) :
  forall (lines : list (list Sections.Span)) (bucket : list Sections.Span),
  bucket <> [] ->
  Forall (fun b => b <> []) lines ->
  Forall (Spec.chained 3) lines -> Spec.chained 3 bucket ->
  Spec.separated 3 (lines ++ [bucket]) ->
  concat (Sections.bucket_loop lines bucket rest) = concat lines ++ bucket ++ rest
  /\ Forall (fun b => b <> []) (Sections.bucket_loop lines bucket rest)
  /\ Forall (Spec.chained 3) (Sections.bucket_loop lines bucket rest)
  /\ Spec.separated 3 (Sections.bucket_loop lines bucket rest).
Proof.
  induction rest as [|sp rest IH]; intros lines bucket Hne Hl Hc Hb Hs; simpl.
  - rewrite concat_app. simpl. rewrite !app_nil_r.
    repeat split; trivial; apply Forall_app; split; trivial; now repeat constructor.
  - destruct (Sections.same_row sp bucket) eqn:Hrow; unfold Sections.same_row in Hrow.
    + apply Qltb_lt in Hrow.
      destruct (IH lines (bucket ++ [sp])) as (E & R); trivial.
      * destruct bucket; discriminate.
      * now apply chained_snoc.
      * now apply separated_grow.
      * split; [|exact R]. rewrite E, <- app_assoc. reflexivity.
    + apply Qltb_ge in Hrow.
      destruct (IH (lines ++ [bucket]) [sp]) as (E & R); trivial.
      * discriminate.
      * apply Forall_app. split; [exact Hl | now repeat constructor].
      * apply Forall_app. split; [exact Hc | now repeat constructor].
      * exact I.
      * now apply separated_open.
      * split; [|exact R]. rewrite E, concat_app. simpl.
        rewrite app_nil_r, <- app_assoc. reflexivity.
Qed.

Lemma StronglySorted_impl (A : Type) (R R' : A -> A -> Prop) (l : list A) :
  (forall a b, R a b -> R' a b) -> StronglySorted R l -> StronglySorted R' l.
Proof.
  intros H. induction 1 as [|x l S IH Hall]; constructor; [exact IH|].
  rewrite Forall_forall in *. auto.
Qed.

Lemma sort_asc_sorted (A : Type) (key : A -> Q) (l : list A) :
  StronglySorted (fun a b => (key a <= key b)%Q) (sort_by asc key l).
Proof.
  eapply StronglySorted_impl; [|apply (sort_by_sorted asc key asc_total asc_trans)].
  intros a b H. now apply Qle_bool_iff.
Qed.

(** X8. The buckets of the section pipeline, laid end to end, are the spans
    sorted by [y0]: no span is lost or repeated, the lines come out top to
    bottom, and no bucket is empty. *)
Theorem line_buckets_partition (spans : list Sections.Span) :
  concat (Sections.line_buckets spans) = sort_by asc Sections.y0 spans
  /\ StronglySorted (fun a b => (Sections.y0 a <= Sections.y0 b)%Q)
       (concat (Sections.line_buckets spans))
  /\ Permutation (concat (Sections.line_buckets spans)) spans
  /\ Forall (fun b => b <> []) (Sections.line_buckets spans).
Proof.
  assert (E : concat (Sections.line_buckets spans) = sort_by asc Sections.y0 spans
              /\ Forall (fun b => b <> []) (Sections.line_buckets spans)).
  { unfold Sections.line_buckets.
    destruct (sort_by asc Sections.y0 spans) as [|first rest]; [split; [reflexivity | constructor]|].
    destruct (@bucket_loop_spec rest [] [first]) as (E & N & _);
      [discriminate | constructor | constructor | exact I | exact I |].
    split; [rewrite E; reflexivity | exact N]. }
  destruct E as [E N]. rewrite E. repeat split; trivial.
  - apply sort_asc_sorted.
  - apply sort_by_perm.
Qed.

(** X9. In the section pipeline two consecutive spans of a bucket are less
    than 3 points apart in [y0], and a bucket starts at least 3 points from
    the last span of the bucket before it. *)
Theorem line_buckets_gaps (spans : list Sections.Span) :
  Forall (Spec.chained 3) (Sections.line_buckets spans)
  /\ Spec.separated 3 (Sections.line_buckets spans).
Proof.
  unfold Sections.line_buckets.
  destruct (sort_by asc Sections.y0 spans) as [|first rest]; [split; [constructor | exact I]|].
  destruct (@bucket_loop_spec rest [] [first]) as (_ & _ & C & S);
    [discriminate | constructor | constructor | exact I | exact I |].
  split; [exact C | exact S].
Qed.

(** ** Segmentation *)

Lemma segment_spec (heading : Sections.CLine -> bool) (lines : list Sections.CLine) :
  forall (out : list Sections.Section) (curr : option Sections.Section),
  Sections.segment heading lines out curr
  = out ++ match curr with
           | Some c =>
               [{| Sections.section_title := Sections.section_title c;
                   Sections.page_number := Sections.page_number c;
                   Sections.content :=
                     Sections.content c ++ Spec.body_until heading lines |}]
           | None => []
           end ++ Spec.sections_from heading lines.
Proof.
  induction lines as [|ln rest IH]; intros out curr; simpl.
  - destruct curr as [[t p c]|]; simpl; now rewrite ?app_nil_r.
  - destruct (heading ln) eqn:H.
    + rewrite IH. simpl. destruct curr as [[t p c]|]; simpl.
      * rewrite app_nil_r, <- app_assoc. reflexivity.
      * reflexivity.
    + rewrite IH. destruct curr as [[t p c]|]; simpl.
      * now rewrite <- !app_assoc.
      * reflexivity.
Qed.

(** X10. Segmentation: every heading line opens a section with the text and
    the page of the line, whose content is the texts of the lines that
    follow up to the next heading, each with a space after it; the lines
    before the first heading belong to no section. *)
Theorem segment_sections (heading : Sections.CLine -> bool)
  (lines : list Sections.CLine) :
  Sections.segment heading lines [] None = Spec.sections_from heading lines
  /\ map Sections.section_title (Sections.segment heading lines [] None)
     = map Sections.c_text (filter heading lines)
  /\ map Sections.page_number (Sections.segment heading lines [] None)
     = map Sections.c_page (filter heading lines).
Proof.
  rewrite segment_spec. simpl.
  repeat split; induction lines as [|ln rest IH]; simpl; trivial;
    destruct (heading ln); simpl; now rewrite ?IH.
Qed.

Lemma segment_titles (heading : Sections.CLine -> bool) (lines : list Sections.CLine) :
  map Sections.section_title (Sections.segment heading lines [] None)
  = map Sections.c_text (filter heading lines).
Proof.
  rewrite segment_spec. simpl.
  induction lines as [|ln rest IH]; simpl; trivial.
  destruct (heading ln); simpl; now rewrite ?IH.
Qed.

Lemma strict_is_fallback (U : UnicodeData) (tops : list Q) (ln : Sections.CLine) :
  Sections.is_head U tops ln = true -> Sections.is_fallback_head U tops ln = true.
Proof.
  unfold Sections.is_head, Sections.is_fallback_head. cbv zeta.
  rewrite !andb_true_iff, !Nat.leb_le.
  unfold Sections.HEADING_WORDS_MAX.
  intros ((((Hs & _ & Hhi) & _) & _) & _). split; [exact Hs | lia].
Qed.

Lemma filter_length_le (A : Type) (p q : A -> bool) (l : list A) :
  (forall x, p x = true -> q x = true) ->
  length (filter p l) <= length (filter q l).
Proof.
  intros H. induction l as [|x l IH]; simpl; [lia|].
  destruct (p x) eqn:P.
  - rewrite (H x P). simpl. lia.
  - destruct (q x); simpl; lia.
Qed.

(** X11. Every strict heading is a fallback heading; so the fallback pass
    finds at least as many sections as the strict pass, and every title of
    the strict pass is a title of the fallback pass. *)
Theorem strict_within_fallback (U : UnicodeData) (collapsed : list Sections.CLine) :
  (forall ln, Sections.is_head U (Sections.top_sizes collapsed) ln = true ->
              Sections.is_fallback_head U (Sections.top_sizes collapsed) ln = true)
  /\ length (Sections.strict_pass U collapsed)
     <= length (Sections.fallback_pass U collapsed)
  /\ incl (map Sections.section_title (Sections.strict_pass U collapsed))
          (map Sections.section_title (Sections.fallback_pass U collapsed)).
Proof.
  split; [intros ln; apply strict_is_fallback|]. split.
  - rewrite <- (length_map Sections.section_title (Sections.strict_pass U collapsed)).
    rewrite <- (length_map Sections.section_title (Sections.fallback_pass U collapsed)).
    unfold Sections.strict_pass, Sections.fallback_pass.
    rewrite !segment_titles, !length_map.
    apply filter_length_le. intros ln. apply strict_is_fallback.
  - unfold Sections.strict_pass, Sections.fallback_pass.
    rewrite !segment_titles. intros t Ht.
    apply in_map_iff in Ht as (ln & <- & Hln). apply filter_In in Hln as [Hin Hh].
    apply in_map, filter_In. split; [exact Hin | now apply strict_is_fallback].
Qed.

Lemma sections_of_spec (U : UnicodeData) (collapsed : list Sections.CLine) :
  Sections.sections_of U collapsed
  = if length (Sections.strict_pass U collapsed) <? 5
    then firstn 5 (Spec.first_by Sections.section_title
                     (Sections.strict_pass U collapsed
                      ++ Sections.fallback_pass U collapsed))
    else firstn 5 (Sections.strict_pass U collapsed).
Proof.
  unfold Sections.sections_of. cbv zeta.
  change Sections.TOP_K_SECTIONS with 5.
  destruct (length _ <? 5); [|reflexivity].
  change 5 with Sections.TOP_K_SECTIONS.
  rewrite merge_loop_spec by (unfold Sections.TOP_K_SECTIONS; cbn [length]; lia).
  rewrite app_nil_l, filter_seen_nil. reflexivity.
Qed.

(** X12. [extract_sections] never returns more than 5 sections, and their
    titles are pairwise distinct unless the strict pass alone supplied them
    (5 strict sections or more, which are not de-duplicated). *)
Theorem extract_sections_bounds (U : UnicodeData) (doc : Document) :
  length (Sections.extract_sections U doc) <= 5
  /\ (NoDup (map Sections.section_title (Sections.extract_sections U doc))
      \/ 5 <= length (Sections.strict_pass U
                        (Sections.collapsed_lines U (Sections.collect_spans U doc)))).
Proof.
  unfold Sections.extract_sections.
  destruct (Sections.collect_spans U doc) as [|sp spans].
  - simpl. split; [lia | left; constructor].
  - rewrite sections_of_spec.
    destruct (length _ <? 5) eqn:E.
    + split; [rewrite length_firstn; lia|]. left.
      rewrite <- firstn_map. apply NoDup_firstn, first_by_NoDup.
    + apply Nat.ltb_ge in E. split; [rewrite length_firstn; lia | now right].
Qed.

(** ** More on [clean_heading] *)

Lemma rstrip_by_head (p : N -> bool) (c : N) (r : pystr) :
  rstrip_by p (c :: r) = [] \/ exists t, rstrip_by p (c :: r) = c :: t.
Proof.
  destruct (rstrip_by_decomp p (c :: r)) as (tail & E & _).
  destruct (rstrip_by p (c :: r)) as [|x t]; [now left|].
  right. exists t. simpl in E. now inversion E.
Qed.

(** X13. A heading whose first character is a colon, a hyphen or an en dash
    is cleaned to the empty string. *)
Theorem clean_heading_leading_separator (U : UnicodeData) (c : N) (r : pystr) :
  Sections.is_clause_sep c = true ->
  Sections.clean_heading U (c :: r) = [].
Proof.
  intros Hc. unfold Sections.clean_heading. cbv zeta.
  destruct (rstrip_by_head Sections.is_trailing_punct c r) as [-> | (t & ->)].
  - reflexivity.
  - simpl. rewrite Hc. reflexivity.
Qed.

(** The theorem at a bulleted heading. *)
Lemma clean_heading_leading_separator_witness :
  Sections.clean_heading Samples.basic_db (ord "-" :: lit " Overview") = [].
Proof.
  apply clean_heading_leading_separator. reflexivity.
Defined.

Lemma lstrip_by_app (p : N -> bool) (x y : pystr) :
  lstrip_by p x <> [] -> lstrip_by p (x ++ y) = lstrip_by p x ++ y.
Proof.
  induction x as [|c x IH]; simpl; intros H; [contradiction|].
  destruct (p c); [now apply IH | reflexivity].
Qed.

Lemma lstrip_by_keeps (p : N -> bool) (s : pystr) (c : N) :
  In c s -> p c = false -> In c (lstrip_by p s).
Proof.
  intros Hin Hc. destruct (lstrip_by_decomp p s) as (pre & E & Hpre & _).
  rewrite E in Hin. apply in_app_or in Hin as [Hin | Hin]; [|exact Hin].
  rewrite Forall_forall in Hpre. specialize (Hpre c Hin). congruence.
Qed.

Lemma rstrip_by_keeps (p : N -> bool) (s : pystr) (c : N) :
  In c s -> p c = false -> In c (rstrip_by p s).
Proof.
  intros Hin Hc. unfold rstrip_by. apply in_rev. rewrite rev_involutive.
  apply lstrip_by_keeps; [now apply in_rev in Hin | exact Hc].
Qed.

Lemma rstrip_by_app (p : N -> bool) (a b : pystr) :
  rstrip_by p b <> [] -> rstrip_by p (a ++ b) = a ++ rstrip_by p b.
Proof.
  unfold rstrip_by. intros H. rewrite rev_app_distr, lstrip_by_app.
  - now rewrite rev_app_distr, rev_involutive.
  - intros E. apply H. now rewrite E.
Qed.

Lemma first_clause_app (clause : pystr) (c : N) (rest : pystr) :
  Forall (fun x => Sections.is_clause_sep x = false) clause ->
  Sections.is_clause_sep c = true ->
  Sections.first_clause (clause ++ c :: rest) = clause.
Proof.
  intros F Hc. induction F as [|x l Hx F IH]; simpl.
  - now rewrite Hc.
  - now rewrite Hx, IH.
Qed.

(** X14. Only the text before the first colon, hyphen or en dash counts:
    when something other than trailing punctuation stands at or after that
    separator, the cleaned heading is made of the tokens of the text before
    it, whatever follows. *)
Theorem clean_heading_drops_tail (U : UnicodeData) (clause : pystr) (c : N)
  (rest : pystr) :
  Forall (fun x => Sections.is_clause_sep x = false) clause ->
  Sections.is_clause_sep c = true ->
  (exists x, In x (c :: rest) /\ Sections.is_trailing_punct x = false) ->
  Sections.clean_heading U (clause ++ c :: rest)
  = join [SPACE] (map (capitalize U) (split U clause)).
Proof.
  intros F Hc (x & Hx & Hp). unfold Sections.clean_heading. cbv zeta.
  assert (Hne : rstrip_by Sections.is_trailing_punct (c :: rest) <> []).
  { intros E. pose proof (rstrip_by_keeps Sections.is_trailing_punct _ _ Hx Hp) as K.
    rewrite E in K. contradiction. }
  rewrite rstrip_by_app by exact Hne.
  destruct (rstrip_by_head Sections.is_trailing_punct c rest) as [E | (t & E)];
    [contradiction|].
  rewrite E, first_clause_app, split_strip by assumption. reflexivity.
Qed.

(** The theorem at a heading with a subtitle after a hyphen. *)
Lemma clean_heading_drops_tail_witness :
  Sections.clean_heading Samples.basic_db (lit "travel tips " ++ ord "-" :: lit " A GUIDE:")
  = join [SPACE] (map (capitalize Samples.basic_db)
                      (split Samples.basic_db (lit "travel tips "))).
Proof.
  apply clean_heading_drops_tail.
  - repeat constructor.
  - reflexivity.
  - exists (ord "-"). split; [now left | reflexivity].
Defined.

(* ================================================================== *)
(** * Part XVII. More on ranking, selection and refinement             *)
(* ================================================================== *)

Lemma to_candidate_with_score (sims : list Q) (ic : nat * Sections.Candidate) :
  Spec.to_candidate (Sections.with_score sims ic) = snd ic.
Proof. destruct ic as [i [[t p c] fn]]. reflexivity. Qed.

Lemma rank_all_perm (cos_sim : pystr -> list pystr -> nat -> Q)
  (query : pystr) (all_secs : list Sections.Candidate) :
  Permutation (map Spec.to_candidate (Sections.rank_all cos_sim query all_secs))
              all_secs.
Proof.
  unfold Sections.rank_all. cbv zeta.
  rewrite (Permutation_map Spec.to_candidate (sort_by_perm desc Sections.score _)).
  rewrite map_map.
  rewrite (map_ext _ snd (to_candidate_with_score _)).
  now rewrite enumerate_snd.
Qed.

(** X15. Ranking keeps every candidate section exactly once and orders them
    by score, highest first. *)
Theorem rank_all_permutes (cos_sim : pystr -> list pystr -> nat -> Q)
  (query : pystr) (all_secs : list Sections.Candidate) :
  Permutation (map Spec.to_candidate (Sections.rank_all cos_sim query all_secs))
              all_secs
  /\ StronglySorted (fun a b => (Sections.score b <= Sections.score a)%Q)
       (Sections.rank_all cos_sim query all_secs).
Proof.
  split; [apply rank_all_perm | apply rank_all_sorted].
Qed.

Lemma select_final_sec (U : UnicodeData) (scored : list Sections.Scored) :
  map Sections.r_sec (Sections.select_final U scored)
  = map (Sections.with_clean_title U)
      (firstn 5 (Spec.first_by Sections.s_filename scored)).
Proof.
  unfold Sections.select_final. now rewrite assign_ranks_sec, select_loop_first.
Qed.

Lemma select_final_filenames (U : UnicodeData) (scored : list Sections.Scored) :
  map (fun r => Sections.s_filename (Sections.r_sec r)) (Sections.select_final U scored)
  = firstn 5 (map Sections.s_filename (Spec.first_by Sections.s_filename scored)).
Proof.
  rewrite <- (map_map Sections.r_sec Sections.s_filename), select_final_sec, map_map.
  cbn [Sections.with_clean_title Sections.s_filename]. symmetry. apply firstn_map.
Qed.

Lemma select_final_length (U : UnicodeData) (scored : list Sections.Scored) :
  length (Sections.select_final U scored)
  = Nat.min 5 (length (Spec.first_by Sections.s_filename scored)).
Proof.
  rewrite <- (length_map Sections.r_sec), select_final_sec, length_map.
  apply length_firstn.
Qed.

(** X16. The selection, for any number of documents: at most 5 sections, of
    pairwise distinct documents, ranked 1, 2, ... in order; and either 5 are
    selected or every document that has a candidate has one selected. *)
Theorem selection_one_per_document (U : UnicodeData) (scored : list Sections.Scored) :
  length (Sections.select_final U scored) <= 5
  /\ NoDup (map (fun r => Sections.s_filename (Sections.r_sec r))
              (Sections.select_final U scored))
  /\ map Sections.importance_rank (Sections.select_final U scored)
     = seq 1 (length (Sections.select_final U scored))
  /\ (length (Sections.select_final U scored) = 5
      \/ forall s, In s scored ->
           In (Sections.s_filename s)
              (map (fun r => Sections.s_filename (Sections.r_sec r))
                   (Sections.select_final U scored))).
Proof.
  split; [rewrite select_final_length; lia|].
  split; [rewrite select_final_filenames; apply NoDup_firstn, first_by_NoDup|].
  split.
  { unfold Sections.select_final. rewrite assign_ranks_rank.
    unfold Sections.assign_ranks. now rewrite length_map, enumerate_length. }
  destruct (Nat.le_gt_cases 5 (length (Spec.first_by Sections.s_filename scored)))
    as [H|H].
  - left. rewrite select_final_length. lia.
  - right. intros s Hs. rewrite select_final_filenames.
    rewrite firstn_all2 by (rewrite length_map; lia).
    apply first_by_keys. now apply in_map.
Qed.

(** ** Sentences *)

Lemma lstrip_by_all (p : N -> bool) (s : pystr) :
  Forall (fun c => p c = true) s -> lstrip_by p s = [].
Proof.
  induction 1 as [|c s Hc Hs IH]; simpl; [reflexivity|]. now rewrite Hc.
Qed.

Lemma strip_blank (U : UnicodeData) (s : pystr) :
  Forall (fun c => is_space U c = true) s -> strip U s = [].
Proof.
  intros H. unfold strip. rewrite (lstrip_by_all _ H). reflexivity.
Qed.

Lemma strip_keeps (U : UnicodeData) (s : pystr) (c : N) :
  In c s -> is_space U c = false -> In c (strip U s).
Proof.
  intros Hin Hc. unfold strip.
  apply rstrip_by_keeps; [|exact Hc]. now apply lstrip_by_keeps.
Qed.

Lemma strip_result_blank (U : UnicodeData) (s : pystr) :
  Forall (fun c => is_space U c = true) (strip U s) -> strip U s = [].
Proof.
  intros H. unfold strip in *.
  destruct (lstrip_by_decomp (is_space U) s) as (pre & E & _ & Hhd).
  destruct (lstrip_by (is_space U) s) as [|c r] eqn:L; [reflexivity|].
  specialize (Hhd c r eq_refl).
  assert (K : In c (rstrip_by (is_space U) (c :: r)))
    by (apply rstrip_by_keeps; [now left | exact Hhd]).
  rewrite Forall_forall in H. specialize (H c K). congruence.
Qed.

Lemma sent_scan_sound (s : pystr) :
  forall mode cur p c,
  In p (Sections.sent_scan mode cur s) -> In c p -> In c cur \/ In c s.
Proof.
  induction s as [|x r IH]; intros mode cur p c Hp Hc; simpl in Hp.
  - destruct Hp as [<- | []]. left. now apply in_rev.
  - destruct mode.
    + destruct (IH _ _ _ _ Hp Hc) as [[<- | H] | H]; auto; right; [now left | now right].
    + destruct (N.eqb x SPACE).
      * destruct Hp as [<- | Hp]; [left; now apply in_rev|].
        destruct (IH _ _ _ _ Hp Hc) as [[] | H]. right. now right.
      * destruct (IH _ _ _ _ Hp Hc) as [[<- | H] | H]; auto; right; [now left | now right].
    + destruct (N.eqb x SPACE).
      * destruct (IH _ _ _ _ Hp Hc) as [[] | H]. right. now right.
      * destruct (IH _ _ _ _ Hp Hc) as [[<- | []] | H]; right; [now left | now right].
Qed.

Lemma sent_scan_covers (s : pystr) :
  forall mode cur c,
  (mode = Sections.InSep -> cur = []) ->
  In c cur \/ (In c s /\ c <> SPACE) ->
  exists p, In p (Sections.sent_scan mode cur s) /\ In c p.
Proof.
  induction s as [|x r IH]; intros mode cur c Hm Hc; simpl.
  - destruct Hc as [Hc | [[] _]]. exists (rev cur). split; [now left | rewrite <- in_rev; exact Hc].
  - assert (Hafter : Sections.mode_after x = Sections.InSep -> x :: cur = [])
      by (unfold Sections.mode_after; destruct (Sections.is_sentence_end x); discriminate).
    assert (Hafter' : Sections.mode_after x = Sections.InSep -> [x] = [])
      by (unfold Sections.mode_after; destruct (Sections.is_sentence_end x); discriminate).
    assert (Hkeep : In c (x :: cur) \/ In c r /\ c <> SPACE).
    { destruct Hc as [Hc | [[-> | Hc] Hn]]; [left; now right | left; now left | right; auto]. }
    destruct mode.
    + now apply IH.
    + destruct (N.eqb x SPACE) eqn:Ex.
      * apply N.eqb_eq in Ex. destruct Hc as [Hc | [[-> | Hc] Hn]].
        -- exists (rev cur). split; [now left | rewrite <- in_rev; exact Hc].
        -- congruence.
        -- destruct (IH Sections.InSep [] c (fun _ => eq_refl) (or_intror (conj Hc Hn)))
             as (p & Hp & Hcp).
           exists p. split; [now right | exact Hcp].
      * now apply IH.
    + rewrite (Hm eq_refl) in *. destruct (N.eqb x SPACE) eqn:Ex.
      * apply N.eqb_eq in Ex. destruct Hc as [[] | [[-> | Hc] Hn]]; [congruence|].
        apply IH; [reflexivity | right; auto].
      * apply IH; [exact Hafter'|].
        destruct Hc as [[] | [[-> | Hc] Hn]]; [left; now left | right; auto].
Qed.

(** X17. In a table where the space is whitespace, a text splits into no
    sentence exactly when it holds nothing but whitespace. *)
Theorem sentences_empty_iff_blank (U : UnicodeData) (cont : pystr) :
  is_space U SPACE = true ->
  (Sections.sentences U cont = [] <-> Forall (fun c => is_space U c = true) cont).
Proof.
  intros Hsp. unfold Sections.sentences. split.
  - intros H. rewrite Forall_forall. intros c Hc.
    destruct (is_space U c) eqn:E; [reflexivity | exfalso].
    assert (Hn : c <> SPACE) by (intros ->; congruence).
    destruct (@sent_scan_covers cont Sections.Plain [] c) as (p & Hp & Hcp);
      [discriminate | right; auto |].
    pose proof (strip_keeps U p c Hcp E) as K.
    assert (X : In (strip U p)
                  (flat_map (fun s => match strip U s with [] => [] | t => [t] end)
                            (Sections.sent_scan Sections.Plain [] cont))).
    { apply in_flat_map. exists p. split; [exact Hp|].
      destruct (strip U p); [contradiction | now left]. }
    rewrite H in X. contradiction.
  - intros H. apply flat_map_nil. intros p Hp.
    rewrite strip_blank; [reflexivity|].
    rewrite Forall_forall in *. intros c Hc.
    destruct (sent_scan_sound _ _ _ _ _ Hp Hc) as [[] | Hin]. now apply H.
Qed.

(** The theorem at a text of blanks. *)
Lemma sentences_empty_iff_blank_witness :
  Sections.sentences Samples.basic_db (lit "   ") = []
  <-> Forall (fun c => is_space Samples.basic_db c = true) (lit "   ").
Proof.
  apply sentences_empty_iff_blank. reflexivity.
Defined.

Lemma section_text_stripped (U : UnicodeData) (page_text : pystr -> nat -> pystr)
  (sec : Sections.Scored) :
  exists x, Sections.section_text U page_text sec = strip U x.
Proof.
  unfold Sections.section_text.
  destruct (strip U (Sections.s_content sec)) eqn:E; eauto.
Qed.

(** X18. In a table where the space is whitespace, the refinement of a
    selected section finds no sentence only when the text it works on, the
    stripped content or else the stripped text of the page, is empty; the
    refined text is then empty. *)
Theorem refine_without_sentences (U : UnicodeData)
  (page_text : pystr -> nat -> pystr)
  (cos_sim : pystr -> list pystr -> nat -> Q) (topk : list Q -> nat -> list nat)
  (query : pystr) (r : Sections.Ranked) :
  is_space U SPACE = true ->
  Sections.sentences U (Sections.section_text U page_text (Sections.r_sec r)) = [] ->
  Sections.section_text U page_text (Sections.r_sec r) = []
  /\ Sections.refined_text (Sections.refine U page_text cos_sim topk query r) = [].
Proof.
  intros Hsp Hs.
  assert (B : Forall (fun c => is_space U c = true)
                (Sections.section_text U page_text (Sections.r_sec r))).
  { destruct (Sections.sentences U _) eqn:E in Hs; [|discriminate].
    unfold Sections.sentences in E.
    rewrite Forall_forall. intros c Hc.
    destruct (is_space U c) eqn:Ec; [reflexivity | exfalso].
    assert (Hn : c <> SPACE) by (intros ->; congruence).
    destruct (@sent_scan_covers _ Sections.Plain [] c (fun X => eq_refl)
                (or_intror (conj Hc Hn))) as (p & Hp & Hcp).
    pose proof (strip_keeps U p c Hcp Ec) as K.
    assert (X : In (strip U p)
                  (flat_map (fun s => match strip U s with [] => [] | t => [t] end)
                     (Sections.sent_scan Sections.Plain []
                        (Sections.section_text U page_text (Sections.r_sec r))))).
    { apply in_flat_map. exists p. split; [exact Hp|].
      destruct (strip U p); [contradiction | now left]. }
    rewrite E in X. contradiction. }
  destruct (section_text_stripped U page_text (Sections.r_sec r)) as (x & Ex).
  assert (Z : Sections.section_text U page_text (Sections.r_sec r) = []).
  { rewrite Ex in *. now apply strip_result_blank. }
  split; [exact Z|].
  unfold Sections.refine. cbv zeta. cbn [Sections.refined_text].
  unfold Sections.refine_text. rewrite Hs. exact Z.
Qed.

(** The theorem at a section of blank content on a page without text. *)
Lemma refine_without_sentences_witness :
  Sections.section_text Samples.basic_db Samples.no_page_text
    (Sections.r_sec Samples.blank_section) = []
  /\ Sections.refined_text
       (Sections.refine Samples.basic_db Samples.no_page_text Samples.five_sims
          Samples.topk_sorted (lit "Analyst. Summarise") Samples.blank_section) = [].
Proof.
  apply refine_without_sentences; reflexivity.
Defined.

(** ** What a run writes *)

Section OutputFacts.
Variable U : UnicodeData.
Variable open_pdf : pystr -> option Document.
Variable page_text : pystr -> nat -> pystr.
Variable cos_sim : pystr -> list pystr -> nat -> Q.
Variable topk : list Q -> nat -> list nat.
Variable now : pystr.
Variable rt : Sections.Runtime.

Lemma refine_all_returns (query : pystr) (final : list Sections.Ranked)
  (sub_anal : list Sections.SubAnalysis) :
  Sections.refine_all U page_text cos_sim topk rt query final = Some sub_anal ->
  sub_anal = map (Sections.refine U page_text cos_sim topk query) final.
Proof.
  revert sub_anal. induction final as [|r rest IH]; intros sub_anal H; simpl in H.
  - now inversion H.
  - destruct (Sections.refine_step U page_text cos_sim topk rt query r) as [a|] eqn:E;
      [|discriminate].
    destruct (Sections.refine_all U page_text cos_sim topk rt query rest) as [l|];
      [|discriminate].
    inversion H; subst. simpl. f_equal; [|now apply IH].
    unfold Sections.refine_step in E. cbv zeta in E.
    destruct (_ && _) in E; [discriminate|].
    destruct (Sections.sentences U _) in E; [now inversion E|].
    destruct (Sections.encodes rt _) in E; [now inversion E | discriminate].
Qed.

Lemma gather_filenames (order : list pystr) :
  forall acc all_secs,
  Sections.gather U open_pdf order acc = Some all_secs ->
  forall c, In c all_secs -> In c acc \/ In (Sections.filename c) order.
Proof.
  induction order as [|fn rest IH]; intros acc all_secs H c Hc; simpl in H.
  - inversion H; subst. now left.
  - destruct (open_pdf fn) as [doc|]; [|discriminate].
    destruct (IH _ _ H c Hc) as [Hin | Hin].
    + apply in_app_or in Hin as [Hin | Hin]; [now left|]. right. left.
      apply in_map_iff in Hin as (sec & <- & _). reflexivity.
    + right. now right.
Qed.

Lemma first_by_nonempty (A : Type) (key : A -> pystr) (l : list A) :
  l <> [] -> 1 <= length (Spec.first_by key l).
Proof. destruct l; [contradiction | simpl; lia]. Qed.

(** X19. When a run writes its output, the file is named after the
    challenge, the metadata lists the documents of the challenge, between 1
    and 5 sections are extracted, from pairwise distinct documents of the
    run and ranked 1, 2, ... in order, and the refined excerpts follow the
    extracted sections one for one, document by document and page by page. *)
Theorem written_output_shape (ch : Sections.Challenge) (order : list pystr)
  (name : pystr) (out : Sections.Output) :
  Sections.main U open_pdf page_text cos_sim topk now rt ch order
  = Sections.Wrote name out ->
  name = Sections.challenge_id ch ++ lit ".json"
  /\ Sections.input_documents (Sections.metadata out) = Sections.documents ch
  /\ 1 <= length (Sections.extracted_sections out) <= 5
  /\ map Sections.ex_rank (Sections.extracted_sections out)
     = seq 1 (length (Sections.extracted_sections out))
  /\ NoDup (map Sections.ex_document (Sections.extracted_sections out))
  /\ (forall e, In e (Sections.extracted_sections out) ->
                In (Sections.ex_document e) order)
  /\ map (fun e => (Sections.ex_document e, Sections.ex_page e))
         (Sections.extracted_sections out)
     = map (fun a => (Sections.sa_document a, Sections.sa_page a))
           (Sections.subsection_analysis out).
Proof.
  unfold Sections.main. cbv zeta.
  remember (Sections.persona ch ++ lit ". " ++ Sections.job ch) as query eqn:Eq.
  clear Eq.
  destruct (negb (Sections.input_reads rt)); [discriminate|].
  destruct (negb (Sections.model_loads rt)); [discriminate|].
  destruct (Sections.gather U open_pdf order []) as [all_secs|] eqn:G; [|discriminate].
  destruct (map (fun c => Sections.section_title (Sections.c_sec c)) all_secs)
    as [|t ts] eqn:T; [discriminate|].
  destruct (negb (Sections.encodes rt _ && Sections.encodes rt _)); [discriminate|].
  destruct (Sections.refine_all U page_text cos_sim topk rt query
              (Sections.select_final U (Sections.rank_all cos_sim query all_secs)))
    as [sub_anal|] eqn:R; [|discriminate].
  apply refine_all_returns in R. subst sub_anal.
  destruct (Sections.writes rt _); [|discriminate].
  intros H. inversion H; subst name out. clear H.
  cbn [Sections.metadata Sections.input_documents Sections.extracted_sections
       Sections.subsection_analysis].
  set (scored := Sections.rank_all cos_sim query all_secs).
  assert (Hne : scored <> []).
  { intros E. pose proof (Permutation_length (rank_all_perm cos_sim query all_secs)) as L.
    fold scored in L. rewrite E in L. simpl in L.
    destruct all_secs; [discriminate | simpl in L; lia]. }
  pose proof (select_final_length U scored) as Hlen.
  pose proof (first_by_nonempty Sections.s_filename Hne) as H1.
  assert (Hdoc : map Sections.ex_document
                   (map Sections.extracted_of (Sections.select_final U scored))
                 = map (fun r => Sections.s_filename (Sections.r_sec r))
                       (Sections.select_final U scored)).
  { rewrite map_map. reflexivity. }
  split; [reflexivity|]. split; [reflexivity|].
  split; [rewrite length_map, Hlen; lia|].
  split.
  { rewrite map_map, length_map. cbn [Sections.extracted_of Sections.ex_rank].
    unfold Sections.select_final at 1 2. rewrite assign_ranks_rank.
    unfold Sections.assign_ranks. now rewrite length_map, enumerate_length. }
  split.
  { rewrite Hdoc, select_final_filenames. apply NoDup_firstn, first_by_NoDup. }
  split.
  { intros e He.
    assert (Hin : In (Sections.ex_document e)
                    (map Sections.ex_document
                       (map Sections.extracted_of (Sections.select_final U scored))))
      by now apply in_map.
    rewrite Hdoc, select_final_filenames in Hin.
    assert (Hin' : In (Sections.ex_document e)
                     (map Sections.s_filename (Spec.first_by Sections.s_filename scored))).
    { rewrite <- (firstn_skipn 5 (map _ _)). apply in_or_app. now left. }
    apply in_map_iff in Hin' as (s & Es & Hs). apply first_by_incl in Hs.
    assert (Hc : In (Spec.to_candidate s) all_secs).
    { apply (Permutation_in _ (rank_all_perm cos_sim query all_secs)).
      now apply in_map. }
    destruct (gather_filenames _ _ G _ Hc) as [[] | Hord].
    rewrite <- Es. exact Hord. }
  rewrite !map_map. reflexivity.
Qed.

End OutputFacts.

(** The theorem at the run over the readable report. *)
Lemma written_output_shape_witness :
  1 <= length (Sections.extracted_sections Samples.report_output) <= 5
  /\ map Sections.ex_rank (Sections.extracted_sections Samples.report_output) = [1]
  /\ map (fun e => (Sections.ex_document e, Sections.ex_page e))
         (Sections.extracted_sections Samples.report_output)
     = map (fun a => (Sections.sa_document a, Sections.sa_page a))
           (Sections.subsection_analysis Samples.report_output).
Proof.
  destruct (@written_output_shape Samples.basic_db Samples.one_report
              Samples.no_page_text Samples.five_sims Samples.topk_sorted
              (lit "2025-07-28T10:00:00") Samples.all_fine Samples.challenge
              [lit "report.pdf"] (lit "round_1b_001.json") Samples.report_output)
    as (_ & _ & Hlen & Hrank & _ & _ & Halign).
  - vm_compute. reflexivity.
  - split; [exact Hlen|]. split; [exact Hrank | exact Halign].
Defined.

(** The run over the report and a missing file ends with the exception. *)
Lemma unreadable_document_raises_witness :
  Sections.main Samples.basic_db Samples.one_report Samples.no_page_text
    Samples.five_sims Samples.topk_sorted (lit "2025-07-28T10:00:00")
    Samples.all_fine Samples.challenge_missing [lit "report.pdf"; lit "missing.pdf"]
  = Sections.Raised.
Proof.
  apply (@unreadable_document_raises Samples.basic_db Samples.one_report
           Samples.no_page_text Samples.five_sims Samples.topk_sorted
           (lit "2025-07-28T10:00:00") Samples.all_fine Samples.challenge_missing
           [lit "report.pdf"; lit "missing.pdf"] (lit "missing.pdf")).
  - right. now left.
  - reflexivity.
Defined.
